(** * The TUI process split of opencode: worker supervision over an RPC channel

    A shallow embedding of
      - [packages/opencode/src/cli/cmd/tui/thread.ts]  (the [$0 [project]] command),
      - the [tui] bootstrap of [app.tsx] (its exit path) and what its [App]
        component wires up (selection, terminal title, arguments),
      - [util/selection.ts] ([Selection.copy]),
      - the dispatcher of [packages/opencode/src/index.ts],
    together with a model of the RPC client ([@/util/rpc]) those files call.

    What the platform decides (the file system, [process.chdir], the
    [Response] constructor) is an input of the model ([Env]). Objects used
    as maps are finite maps; strings that are measured are sequences of
    UTF-16 code units.

    Asynchronous functions are embedded as trees of effects ([Task]): each
    [await client.call(...)] is a node holding the rest of the function as
    its continuation, and the continuation is what the RPC client stores in
    its pending table until the matching response arrives. *)

From stdpp Require Import gmap strings list fin_maps.
From Stdlib Require Import ZArith Lia.

Local Open Scope string_scope.
Local Open Scope Z_scope.
Local Open Scope list_scope.

(** ** JavaScript values the code relies on *)

Module Js.

(** Values a JavaScript [throw] / promise rejection carries in this code. *)
Inductive Error : Type :=
| CallFailure (kind message : string)   (* error reconstructed from an RPC error response *)
| ChannelClosed                         (* the transport died under a pending call *)
| TypeError (message : string)
| RangeError (message : string).

(** Outcome of a settled promise. *)
Inductive Outcome (R : Type) : Type :=
| Fulfilled (r : R)
| Rejected (e : Error).
Arguments Fulfilled {R} r.
Arguments Rejected {R} e.

(** Truthiness of a [string | undefined] value: [undefined] and [""] are falsy. *)
Definition truthy (v : option string) : bool :=
  match v with
  | Some s => negb (String.eqb s "")
  | None => false
  end.

(** [Array.prototype.includes] on an array of strings. *)
Definition includes (xs : list string) (x : string) : bool :=
  existsb (String.eqb x) xs.

(** A plain object with string values, used as a map: the finite map from
    the names of its own properties to their values. The order in which
    JavaScript enumerates the properties is not part of the model. *)
Abbreviation Obj := (gmap string string).

(** [Object.fromEntries(entries)]: the entries are set one after the other,
    so a later entry of the same name overwrites an earlier one. *)
Definition fromEntries (entries : list (string * string)) : Obj :=
  foldl (fun o e => <[fst e := snd e]> o) ∅ entries.

(** A string whose length matters, as JavaScript measures it: the sequence
    of its UTF-16 code units, which [length] counts and [slice] cuts. *)
Definition Str : Type := list N.

(** The code units of a literal of the code, all of whose characters are
    ASCII: one unit per character. *)
Fixpoint units (s : string) : Str :=
  match s with
  | EmptyString => []
  | String a rest => Ascii.N_of_ascii a :: units rest
  end.

(** [s.slice(0, n)] for a non-negative [n]. *)
Definition slice0 (n : nat) (s : Str) : Str := take n s.

End Js.
Export Js.

(** ** The RPC client *)

Module Rpc.

Section Client.
(** [P]: call payloads, [R]: call results, [K]: what a pending entry
    holds (the resolver of the call's promise). *)
Context {P R K : Type}.

(** Modelled from the spec: the call message of the missing [@/util/rpc],
    RpcCall [{ id, method, payload }]. *)
Record Call : Type := mkCall {
  call_id : nat;
  call_method : string;
  call_payload : P
}.

(** Modelled from the spec: the response message of the missing
    [@/util/rpc], RpcResponse [{ id, result }] or [{ id, error }], the error
    being a structured failure with a kind and a message. *)
Inductive Response : Type :=
| Result (id : nat) (result : R)
| Failure (id : nat) (kind message : string).

Definition response_id (r : Response) : nat :=
  match r with
  | Result id _ => id
  | Failure id _ _ => id
  end.

(** Modelled from the spec: how the missing [@/util/rpc] settles a call on
    its response: "on error field present, the call rejects with a
    reconstructed error describing kind and message". *)
Definition response_outcome (r : Response) : Outcome R :=
  match r with
  | Result _ v => Fulfilled v
  | Failure _ kind message => Rejected (CallFailure kind message)
  end.

(** Modelled from the spec: the client state of [@/util/rpc], which is
    not among the sources. "each call generates a fresh correlation id,
    records a pending-response entry (id -> resolver)": a counter for the
    ids and the table of pending entries. *)
Record Channel : Type := mkChannel {
  next : nat;
  pending : gmap nat K
}.

(** Modelled from the spec: [Rpc.client(target)], a channel with nothing
    in flight. *)
Definition client : Channel := {| next := 0%nat; pending := ∅ |}.

(** Modelled from the spec: [call(method, payload)] of the missing
    [@/util/rpc]: a fresh id, a pending entry for it, and the message
    [{id, method, payload}] handed to the transport. *)
Definition call (method : string) (payload : P) (k : K) (c : Channel)
  : Call * Channel :=
  let id := next c in
  (mkCall id method payload,
   {| next := S id; pending := <[id := k]> (pending c) |}).

(** Modelled from the spec: the inbound half of the missing [@/util/rpc]
    for responses: "until a matching RpcResponse arrives"; the pending
    entry with the response's id is taken out and its resolver is handed
    the outcome. A response that matches no pending entry is dropped. *)
Definition receive (r : Response) (c : Channel)
  : option (K * Outcome R) * Channel :=
  match pending c !! response_id r with
  | Some k =>
      (Some (k, response_outcome r),
       {| next := next c; pending := delete (response_id r) (pending c) |})
  | None => (None, c)
  end.

(** Modelled from the spec: transport death in the missing [@/util/rpc]:
    "every pending entry rejects with a channel closed failure". *)
Definition close (c : Channel) : list (nat * K) * Channel :=
  (map_to_list (pending c), {| next := next c; pending := ∅ |}).

(** *** The client as a machine driven by its callers and its transport *)

Inductive Input : Type :=
| Issue (method : string) (payload : P) (k : K)
| Arrive (r : Response)
| Die.

(** State of a run: the channel, the messages put on the transport and
    the settlements of call promises, both oldest first. *)
Record Run : Type := mkRun {
  chan : Channel;
  sent : list Call;
  settled : list (nat * Outcome R)
}.

Definition start : Run := {| chan := client; sent := []; settled := [] |}.

Definition step (st : Run) (i : Input) : Run :=
  match i with
  | Issue method payload k =>
      let '(msg, c) := call method payload k (chan st) in
      {| chan := c; sent := sent st ++ [msg]; settled := settled st |}
  | Arrive r =>
      match receive r (chan st) with
      | (Some (_, o), c) =>
          {| chan := c; sent := sent st;
             settled := settled st ++ [(response_id r, o)] |}
      | (None, c) => {| chan := c; sent := sent st; settled := settled st |}
      end
  | Die =>
      let '(ks, c) := close (chan st) in
      {| chan := c; sent := sent st;
         settled := settled st ++ map (fun e => (fst e, Rejected ChannelClosed)) ks |}
  end.

Definition run_from (st : Run) (inputs : list Input) : Run := foldl step st inputs.
Definition run (inputs : list Input) : Run := run_from start inputs.

(** The settlements of one call id, oldest first. *)
Definition settlements (id : nat) (st : Run) : list (Outcome R) :=
  map snd (filter (fun e => fst e = id) (settled st)).

(** What the inputs that follow a call decide for it: the first matching
    response, or the death of the transport, whichever comes first. *)
Fixpoint verdict (id : nat) (rest : list Input) : option (Outcome R) :=
  match rest with
  | [] => None
  | Issue _ _ _ :: rest' => verdict id rest'
  | Arrive r :: rest' =>
      if decide (response_id r = id) then Some (response_outcome r)
      else verdict id rest'
  | Die :: _ => Some (Rejected ChannelClosed)
  end.

(** Ids at or above the counter are neither pending nor settled. *)
Definition fresh_above (st : Run) : Prop :=
  forall id, (next (chan st) <= id)%nat ->
    pending (chan st) !! id = None /\ settlements id st = [].

End Client.

Arguments Call : clear implicits.
Arguments Response : clear implicits.
Arguments Channel : clear implicits.
Arguments Input : clear implicits.
Arguments Run : clear implicits.

End Rpc.


(** ** Data of the TUI command *)

Module Data.

(** NetworkOptions as resolved by [resolveNetworkOptions]. *)
Record NetworkOptions : Type := mkNetworkOptions {
  port : Z;
  hostname : string;
  mdns : bool
}.

(** The payload of a ["fetch"] call. *)
Record SerializedHttpRequest : Type := mkSerializedHttpRequest {
  sreq_url : string;
  sreq_method : string;
  sreq_headers : Obj;
  sreq_body : option string          (* [undefined] when the request has no body *)
}.

(** The result of a ["fetch"] call. *)
Record SerializedHttpResponse : Type := mkSerializedHttpResponse {
  sres_body : string;
  sres_status : Z;
  sres_headers : Obj
}.

(** Payloads of the calls [thread.ts] issues. *)
Inductive Payload : Type :=
| PUndefined                                  (* "reload", "shutdown" *)
| PFetch (request : SerializedHttpRequest)    (* "fetch" *)
| PServer (options : NetworkOptions)          (* "server" *)
| PCheckUpgrade (directory : string).         (* "checkUpgrade": [{ directory }] *)

(** Results the worker answers with. *)
Inductive Result : Type :=
| RUndefined
| RFetch (response : SerializedHttpResponse)
| RServer (url : string).

(** A [Request] of the Fetch API, as [new Request(input, init)] built it:
    [headers] is what [request.headers.entries()] iterates, [body] what
    [request.text()] reads when [request.body] is not null. *)
Record Request : Type := mkRequest {
  request_url : string;
  request_method : string;
  request_headers : list (string * string);
  request_body : option string
}.

(** A [Response] of the Fetch API as the platform built it: what [text()]
    reads, its [status], and what its [headers] hold. It comes from the
    platform's constructor alone ([new_Response] below). *)
Record Response : Type := mkResponse {
  response_body : string;
  response_status : Z;
  response_headers : Obj
}.

(** Bodies of the arrow functions given to [process.on] and [worker.onerror]. *)
Inductive Listener : Type :=
| LogTheError     (* (e) => { Log.Default.error(e) } *)
| Reload.         (* async () => { await client.call("reload", undefined) } *)

(** Body of the arrow function given to [setTimeout]; it closes over [cwd]. *)
Inductive Timer : Type :=
| CheckUpgrade (directory : string).

(** The [onExit] callback handed to [tui]:
    async () => { await client.call("shutdown", undefined) }. *)
Inductive ExitHook : Type :=
| Shutdown.

(** [createWorkerFetch(client)] and [createEventSource(client)] as values. *)
Inductive FetchImpl : Type := WorkerFetch.
Inductive EventSource : Type := WorkerEvents.

(** Arguments of the command, as yargs parsed them. *)
Record Args : Type := mkArgs {
  project : option string;
  model : option string;
  continue : option bool;
  session : option string;
  prompt : option string;
  agent : option string
}.

(** [args] of the [tui] input. *)
Record TuiArgs : Type := mkTuiArgs {
  tui_continue : option bool;
  tui_sessionID : option string;
  tui_agent : option string;
  tui_model : option string;
  tui_prompt : option string
}.

(** The input object of [tui]. *)
Record TuiInput : Type := mkTuiInput {
  tui_url : string;
  tui_fetch : option FetchImpl;
  tui_events : option EventSource;
  tui_args : TuiArgs;
  tui_onExit : option ExitHook
}.

(** The two operating modes. *)
Inductive Mode : Type := Direct | Server.

(** What the process gives the handler to read. *)
Record Env : Type := mkEnv {
  process_env : list (string * option string);   (* process.env, an entry may be undefined *)
  process_cwd : string;                           (* process.cwd() at start *)
  process_argv : list string;                     (* process.argv *)
  OPENCODE_WORKER_PATH : option string;           (* None: typeof ... === "undefined" *)
  localWorker : string;                           (* new URL("./worker.ts", import.meta.url) *)
  distWorker : string;                            (* new URL("./cli/cmd/tui/worker.js", import.meta.url) *)
  file_exists : string -> bool;                   (* Bun.file(p).exists() *)
  chdir_throws : string -> bool;                  (* whether process.chdir(p) throws *)
  path_resolve : string -> string -> string;      (* path.resolve *)
  stdin_isTTY : bool;                             (* process.stdin.isTTY *)
  stdin_text : string;                            (* Bun.stdin.text() *)
  resolveNetworkOptions : Args -> NetworkOptions; (* @/cli/network *)
  new_Response : string -> Z -> Obj -> Outcome Response
    (* new Response(body, { status, headers }): the response built, or what
       the constructor throws (a RangeError for a status outside 200..599) *)
}.

(** Observable actions of the code. *)
Inductive Action : Type :=
| Chdir (dir : string)                                   (* process.chdir(dir) went through *)
| UIError (message : string)                             (* UI.error(message) *)
| NewWorker (path : string) (env : list (string * string))  (* new Worker(path, { env }) *)
| WorkerOnError (l : Listener)                           (* worker.onerror = l *)
| RpcClient                                              (* Rpc.client(worker) *)
| ProcessOn (event : string) (l : Listener)              (* process.on(event, l) *)
| LogError (e : option Error)                            (* Log.Default.error(e) *)
| Tui (input : TuiInput)                                 (* tui(input) *)
| SetTimeout (cb : Timer) (ms : Z)                       (* setTimeout(cb, ms) *)
| Unguard                                                (* unguard?.() *)
| ResolveTui                                             (* resolve() of the promise tui returned *)
| SetTerminalTitle (title : string)                      (* renderer.setTerminalTitle *)
| RendererDestroy                                        (* renderer.destroy() *)
| Win32FlushInputBuffer                                  (* win32FlushInputBuffer() *)
| FetchReturned (response : Response).                   (* the custom fetch's promise fulfilled *)

End Data.
Export Data.

(** ** Asynchronous functions as effect trees *)

Module Async.

(** An async function body that returns an [A]. [Await method payload k] is
    [await client.call(method, payload)] followed by the rest [k] of the
    function, which gets the settled outcome; [AwaitTui k] is
    [await tuiPromise]. *)
Inductive Task (A : Type) : Type :=
| Done (a : A)
| Throw (e : Error)
| Act (a : Action) (k : Task A)
| Await (method : string) (payload : Payload) (k : Outcome Result -> Task A)
| AwaitTui (k : Task A).
Arguments Done {A} a.
Arguments Throw {A} e.
Arguments Act {A} a k.
Arguments Await {A} method payload k.
Arguments AwaitTui {A} k.

(** Sequencing: [await t] inside another async function, then [f]. A throw
    skips [f]. *)
Fixpoint bind {A B : Type} (t : Task A) (f : A -> Task B) : Task B :=
  match t with
  | Done a => f a
  | Throw e => Throw e
  | Act a k => Act a (bind k f)
  | Await method payload k => Await method payload (fun o => bind (k o) f)
  | AwaitTui k => AwaitTui (bind k f)
  end.

(** [await client.call(method, payload)]: the value of a fulfilled call, a
    throw of the error of a rejected one. *)
Definition call (method : string) (payload : Payload) : Task Result :=
  Await method payload
    (fun o => match o with
              | Fulfilled r => Done r
              | Rejected e => Throw e
              end).

(** A task all of whose actions satisfy [okA] and all of whose calls are to
    methods satisfying [okM], whatever the outcomes of its calls; and which,
    if it awaits the tui promise, does nothing after it. *)
Inductive Only (okA : Action -> Prop) (okM : string -> Prop) {A : Type} : Task A -> Prop :=
| Only_Done (a : A) : Only okA okM (Done a)
| Only_Throw (e : Error) : Only okA okM (Throw e)
| Only_Act (a : Action) (k : Task A) :
    okA a -> Only okA okM k -> Only okA okM (Act a k)
| Only_Await (method : string) (payload : Payload) (k : Outcome Result -> Task A) :
    okM method -> (forall o, Only okA okM (k o)) -> Only okA okM (Await method payload k)
| Only_AwaitTui (a : A) : Only okA okM (AwaitTui (Done a)).

Declare Scope task_scope.
Delimit Scope task_scope with task.
Notation "x <- t ;; k" := (bind t (fun x => k))
  (at level 100, t at next level, right associativity) : task_scope.
Notation "'act' a ;; k" := (Act a k)
  (at level 100, a at level 9, right associativity) : task_scope.

End Async.
Export Async.


(** ** [util/selection.ts] *)

Module Selection.

(** The renderer's selection state: [getSelection()] is [null] ([None]) or an
    object whose [getSelectedText()] is the given string. *)
Record Renderer : Type := mkRenderer {
  selection : option string
}.

Definition getSelection (renderer : Renderer) : option string := selection renderer.

Definition clearSelection (renderer : Renderer) : Renderer := {| selection := None |}.

(** What [copy] does to the outside while it runs. *)
Inductive Effect : Type :=
| ClipboardCopy (text : string)        (* Clipboard.copy(text) is called *)
| ToastShow (message variant : string) (* toast.show({ message, variant }) *)
| ToastError (e : Error)               (* toast.error(e) *)
| ClearSelection.                      (* renderer.clearSelection() *)

(** [Selection.copy(renderer, toast)]: the returned boolean, the renderer
    afterwards and the effects in order. The toast is not among them: it is
    shown by [copied], when the clipboard promise settles. *)
Definition copy (renderer : Renderer) : bool * Renderer * list Effect :=
  let text := getSelection renderer in      (* renderer.getSelection()?.getSelectedText() *)
  if negb (truthy text) then (false, renderer, [])
  else
    match text with
    | Some text => (true, clearSelection renderer, [ClipboardCopy text; ClearSelection])
    | None => (false, renderer, [])
    end.

(** The reaction chained on the clipboard promise:
    [.then(() => toast.show({...})).catch(toast.error)]. *)
Definition copied (o : Outcome unit) : list Effect :=
  match o with
  | Fulfilled _ => [ToastShow "Copied to clipboard" "info"]
  | Rejected e => [ToastError e]
  end.

End Selection.

(** ** [cli/cmd/tui/thread.ts] *)

Module Thread.

Local Open Scope task_scope.

(** The function [fn] that [createWorkerFetch(client)] returns, applied to
    the request [new Request(input, init)]. *)
Definition createWorkerFetch (env : Env) (request : Request) : Task Response :=
  let body :=
    match request_body request with
    | Some text => Some text           (* request.body ? await request.text() *)
    | None => None                     (* : undefined *)
    end in
  result <- call "fetch"
              (PFetch {| sreq_url := request_url request;
                         sreq_method := request_method request;
                         sreq_headers := fromEntries (request_headers request);
                         sreq_body := body |}) ;;
  match result with
  | RFetch result =>
      (* return new Response(result.body, { status, headers }) *)
      match new_Response env (sres_body result) (sres_status result) (sres_headers result) with
      | Fulfilled response => Done response
      | Rejected e => Throw e
      end
  | _ => Throw (TypeError "fetch result is not a response")
  end.

(** The [workerPath] of the handler. *)
Definition workerPath (env : Env) : string :=
  match OPENCODE_WORKER_PATH env with
  | Some injected => injected                       (* build-time inject *)
  | None =>
      if file_exists env (distWorker env) then distWorker env
      else localWorker env
  end.

(** [shouldStartServer] of the handler. *)
Definition shouldStartServer (argv : list string) (networkOpts : NetworkOptions) : bool :=
  includes argv "--port" ||
  includes argv "--hostname" ||
  includes argv "--mdns" ||
  mdns networkOpts ||
  negb (port networkOpts =? 0) ||
  negb (String.eqb (hostname networkOpts) "127.0.0.1").

Definition selectMode (argv : list string) (networkOpts : NetworkOptions) : Mode :=
  if shouldStartServer argv networkOpts then Server else Direct.

(** [process.env.PWD]. *)
Fixpoint getenv (entries : list (string * option string)) (name : string) : option string :=
  match entries with
  | [] => None
  | (k, v) :: rest => if String.eqb name k then v else getenv rest name
  end.

(** [Object.entries(process.env).filter(entry => entry[1] !== undefined)]. *)
Fixpoint definedEntries (entries : list (string * option string)) : list (string * string) :=
  match entries with
  | [] => []
  | (k, Some v) :: rest => (k, v) :: definedEntries rest
  | (_, None) :: rest => definedEntries rest
  end.

(** The directory the handler works in. *)
Definition cwdOf (env : Env) (args : Args) : string :=
  let baseCwd := default (process_cwd env) (getenv (process_env env) "PWD") in
  match project args with
  | Some p => if truthy (Some p) then path_resolve env baseCwd p else process_cwd env
  | None => process_cwd env
  end.

(** The [prompt] of the handler: piped input, then the [--prompt] argument. *)
Definition promptOf (env : Env) (args : Args) : option string :=
  let piped := if negb (stdin_isTTY env) then Some (stdin_text env) else None in
  if negb (truthy (prompt args)) then piped
  else
    match piped, prompt args with
    | Some text, Some p =>
        if truthy piped then Some (text +:+ String (Ascii.ascii_of_nat 10) "" +:+ p) else prompt args
    | _, _ => prompt args
    end.

(** The [onExit] callback given to [tui]. *)
Definition onExit : Task unit :=
  _ <- call "shutdown" PUndefined ;;
  Done tt.

(** [TuiThreadCommand.handler]. *)
Definition handler (env : Env) (args : Args) : Task unit :=
  let cwd := cwdOf env args in
  let workerPath := workerPath env in
  if chdir_throws env cwd then
    act (UIError ("Failed to change directory to " +:+ cwd)) ;;
    Done tt
  else
    act (Chdir cwd) ;;
    (* Spawn Worker *)
    act (NewWorker workerPath (definedEntries (process_env env))) ;;
    act (WorkerOnError LogTheError) ;;
    act RpcClient ;;
    (* Set up Signal Handlers *)
    act (ProcessOn "uncaughtException" LogTheError) ;;
    act (ProcessOn "unhandledRejection" LogTheError) ;;
    act (ProcessOn "SIGUSR2" Reload) ;;
    let promptText := promptOf env args in
    let networkOpts := resolveNetworkOptions env args in
    let shouldStartServer := shouldStartServer (process_argv env) networkOpts in
    connection <-
      (if shouldStartServer then
         server <- call "server" (PServer networkOpts) ;;
         match server with
         | RServer url => Done (url, None, None)
         | _ => Throw (TypeError "server result has no url")
         end
       else
         Done ("http://opencode.internal", Some WorkerFetch, Some WorkerEvents)) ;;
    let '(url, customFetch, events) := connection in
    act (Tui {| tui_url := url;
                tui_fetch := customFetch;
                tui_events := events;
                tui_args := {| tui_continue := continue args;
                               tui_sessionID := session args;
                               tui_agent := agent args;
                               tui_model := model args;
                               tui_prompt := promptText |};
                tui_onExit := Some Shutdown |}) ;;
    act (SetTimeout (CheckUpgrade cwd) 1000) ;;
    AwaitTui (Done tt).

(** What a registered listener runs when its event is emitted with argument
    [e] ([None]: a signal, which carries no error). *)
Definition listener (l : Listener) (e : option Error) : Task unit :=
  match l with
  | LogTheError => act (LogError e) ;; Done tt
  | Reload => _ <- call "reload" PUndefined ;; Done tt
  end.

(** What the timer callback runs:
    [client.call("checkUpgrade", { directory: cwd }).catch(() => {})]. *)
Definition timer (t : Timer) : Task unit :=
  match t with
  | CheckUpgrade directory =>
      Await "checkUpgrade" (PCheckUpgrade directory) (fun _ => Done tt)
  end.

End Thread.

(** ** The exit path of [tui] in [app.tsx] *)

Module App.

Local Open Scope task_scope.

(** The [onExit] closure of [tui(input)]; [inputOnExit] is what
    [input.onExit?.()] runs, if the caller gave one. *)
Definition onExit (inputOnExit : option (Task unit)) : Task unit :=
  act Unguard ;;
  _ <- default (Done tt) inputOnExit ;;
  act ResolveTui ;;
  Done tt.

(** [handleExit] of the crash screen ([ErrorComponent]). *)
Definition handleExit (inputOnExit : option (Task unit)) : Task unit :=
  act (SetTerminalTitle "") ;;
  act RendererDestroy ;;
  act Win32FlushInputBuffer ;;
  onExit inputOnExit.

End App.

(** ** The wire form of a call *)

Module Wire.

#[warnings="-register-all"]
Inductive Json : Type :=
| JBool (b : bool)
| JNumber (n : Z)
| JString (s : string)
| JObject (fields : list (string * Json)).

(** A property of an object literal on the wire: a property whose value is
    [undefined] leaves no field. *)
Definition field (name : string) (value : option Json) : list (string * Json) :=
  match value with
  | Some j => [(name, j)]
  | None => []
  end.

(** An object used as a map, its fields in no particular order. *)
Definition obj_json (o : Obj) : Json :=
  JObject (map (fun e => (fst e, JString (snd e))) (map_to_list o)).

(** Modelled from the spec: the serialized payload of a call; the encoder is
    part of the missing [@/util/rpc]. "requests without a body omit the body
    field rather than sending an empty string": the properties of the object
    literal in source order, without those that are [undefined]. *)
Definition payload_json (p : Payload) : option Json :=
  match p with
  | PUndefined => None
  | PFetch r =>
      Some (JObject (field "url" (Some (JString (sreq_url r))) ++
                     field "method" (Some (JString (sreq_method r))) ++
                     field "headers" (Some (obj_json (sreq_headers r))) ++
                     field "body" (JString <$> sreq_body r)))
  | PServer o =>
      Some (JObject (field "port" (Some (JNumber (port o))) ++
                     field "hostname" (Some (JString (hostname o))) ++
                     field "mdns" (Some (JBool (mdns o)))))
  | PCheckUpgrade directory =>
      Some (JObject (field "directory" (Some (JString directory))))
  end.

(** The field names of a serialized value. *)
Definition field_names (j : option Json) : list string :=
  match j with
  | Some (JObject fields) => map fst fields
  | _ => []
  end.

(** The value of a field of a serialized value. *)
Fixpoint lookup_field (name : string) (fields : list (string * Json)) : option Json :=
  match fields with
  | [] => None
  | (k, v) :: rest => if String.eqb name k then Some v else lookup_field name rest
  end.

Definition get_field (name : string) (j : option Json) : option Json :=
  match j with
  | Some (JObject fields) => lookup_field name fields
  | _ => None
  end.

End Wire.

(** ** The process as an event loop *)

Module Loop.

(** What a pending entry of the RPC client holds: the rest of the async
    function that awaits the call. *)
Abbreviation Resolver := (Outcome Result -> Task unit).

(** What an observer of the process sees, oldest first. *)
Inductive Event : Type :=
| Did (a : Action)                             (* an action was performed *)
| Called (msg : Rpc.Call Payload)              (* client.call(method, payload) *)
| Settled (id : nat) (o : Outcome Result)      (* the promise of call [id] settled *)
| Threw (e : Error).                           (* an async function ended in a throw *)

Record World : Type := mkWorld {
  rpc : Rpc.Channel Resolver;                  (* the client of Rpc.client(worker) *)
  trace : list Event;
  listeners : list (string * Listener);        (* process.on registrations, in order *)
  onerror : option Listener;                   (* worker.onerror *)
  timers : list (Timer * Z);                   (* setTimeout registrations not yet fired *)
  ui : option TuiInput;                        (* the input of the running tui, if any *)
  tuiResolved : bool;                          (* whether tui's promise has resolved *)
  tuiWaiters : list (Task unit)                (* continuations of [await tuiPromise] *)
}.

Definition boot : World :=
  {| rpc := Rpc.client; trace := []; listeners := []; onerror := None;
     timers := []; ui := None; tuiResolved := false; tuiWaiters := [] |}.

Definition emit (e : Event) (w : World) : World :=
  {| rpc := rpc w; trace := trace w ++ [e]; listeners := listeners w;
     onerror := onerror w; timers := timers w; ui := ui w;
     tuiResolved := tuiResolved w; tuiWaiters := tuiWaiters w |}.

Definition set_rpc (c : Rpc.Channel Resolver) (w : World) : World :=
  {| rpc := c; trace := trace w; listeners := listeners w;
     onerror := onerror w; timers := timers w; ui := ui w;
     tuiResolved := tuiResolved w; tuiWaiters := tuiWaiters w |}.

Definition set_timers (ts : list (Timer * Z)) (w : World) : World :=
  {| rpc := rpc w; trace := trace w; listeners := listeners w;
     onerror := onerror w; timers := ts; ui := ui w;
     tuiResolved := tuiResolved w; tuiWaiters := tuiWaiters w |}.

Definition set_tuiWaiters (ks : list (Task unit)) (w : World) : World :=
  {| rpc := rpc w; trace := trace w; listeners := listeners w;
     onerror := onerror w; timers := timers w; ui := ui w;
     tuiResolved := tuiResolved w; tuiWaiters := ks |}.

(** The state change of an action. *)
Definition effect (a : Action) (w : World) : World :=
  match a with
  | RpcClient => set_rpc Rpc.client w
  | ProcessOn event l =>
      {| rpc := rpc w; trace := trace w; listeners := listeners w ++ [(event, l)];
         onerror := onerror w; timers := timers w; ui := ui w;
         tuiResolved := tuiResolved w; tuiWaiters := tuiWaiters w |}
  | WorkerOnError l =>
      {| rpc := rpc w; trace := trace w; listeners := listeners w;
         onerror := Some l; timers := timers w; ui := ui w;
         tuiResolved := tuiResolved w; tuiWaiters := tuiWaiters w |}
  | SetTimeout cb ms => set_timers (timers w ++ [(cb, ms)]) w
  | Tui input =>
      {| rpc := rpc w; trace := trace w; listeners := listeners w;
         onerror := onerror w; timers := timers w; ui := Some input;
         tuiResolved := tuiResolved w; tuiWaiters := tuiWaiters w |}
  | ResolveTui =>
      {| rpc := rpc w; trace := trace w; listeners := listeners w;
         onerror := onerror w; timers := timers w; ui := ui w;
         tuiResolved := true; tuiWaiters := tuiWaiters w |}
  | _ => w
  end.

Definition perform (a : Action) (w : World) : World := effect a (emit (Did a) w).

(** Run an async function until it returns, throws or suspends on an
    [await]. A suspended function sits in the RPC client's pending table or
    among the waiters of the tui promise. A throw ends the function and is
    recorded; what the runtime then reports ([unhandledRejection]) reaches
    the process as an input of its own. *)
Fixpoint run (t : Task unit) (w : World) : World :=
  match t with
  | Done _ => w
  | Throw e => emit (Threw e) w
  | Act a k => run k (perform a w)
  | Await method payload k =>
      let '(msg, c) := Rpc.call method payload k (rpc w) in
      emit (Called msg) (set_rpc c w)
  | AwaitTui k =>
      if tuiResolved w then run k w
      else set_tuiWaiters (tuiWaiters w ++ [k]) w
  end.

(** A resolved tui promise resumes the functions awaiting it. *)
Definition wake (w : World) : World :=
  if tuiResolved w
  then foldl (fun w k => run k w) (set_tuiWaiters [] w) (tuiWaiters w)
  else w.

(** The body behind an [ExitHook]. *)
Definition exitHook (h : ExitHook) : Task unit :=
  match h with
  | Shutdown => Thread.onExit
  end.

(** The custom fetch as its caller uses it: the response it is given. *)
Definition fetching (env : Env) (request : Request) : Task unit :=
  bind (Thread.createWorkerFetch env request)
       (fun response => Act (FetchReturned response) (Done tt)).

(** What happens to the process from outside. *)
Inductive Input : Type :=
| Invoke (args : Args)                     (* yargs runs the command's handler *)
| Emit (event : string) (e : option Error) (* process emits [event]: a signal, an uncaught error *)
| WorkerFault (e : Error)                  (* the worker reports an error *)
| Receive (r : Rpc.Response Result)        (* an RpcResponse arrives *)
| TransportDies                            (* the transport reports termination *)
| TimerElapses                             (* the oldest timer fires *)
| ExitRequested                            (* the TUI calls the onExit of tui *)
| CrashScreenExit                          (* Exit / Ctrl+C on the crash screen: handleExit *)
| FetchCalled (request : Request).         (* the SDK calls the fetch it was given *)

Definition react (env : Env) (w : World) (i : Input) : World :=
  match i with
  | Invoke args => run (Thread.handler env args) w
  | Emit event e =>
      foldl (fun w r => if String.eqb (fst r) event
                        then run (Thread.listener (snd r) e) w else w)
            w (listeners w)
  | WorkerFault e =>
      match onerror w with
      | Some l => run (Thread.listener l (Some e)) w
      | None => w
      end
  | Receive r =>
      match Rpc.receive r (rpc w) with
      | (Some (k, o), c) => run (k o) (emit (Settled (Rpc.response_id r) o) (set_rpc c w))
      | (None, _) => w
      end
  | TransportDies =>
      let '(ks, c) := Rpc.close (rpc w) in
      foldl (fun w e => run (snd e (Rejected ChannelClosed))
                            (emit (Settled (fst e) (Rejected ChannelClosed)) w))
            (set_rpc c w) ks
  | TimerElapses =>
      match timers w with
      | (cb, _) :: rest => run (Thread.timer cb) (set_timers rest w)
      | [] => w
      end
  | ExitRequested =>
      match ui w with
      | Some input => run (App.onExit (exitHook <$> tui_onExit input)) w
      | None => w
      end
  | CrashScreenExit =>
      match ui w with
      | Some input => run (App.handleExit (exitHook <$> tui_onExit input)) w
      | None => w
      end
  | FetchCalled request =>
      match ui w with
      | Some input =>
          match tui_fetch input with
          | Some WorkerFetch => run (fetching env request) w
          | None => w
          end
      | None => w
      end
  end.

Definition step (env : Env) (w : World) (i : Input) : World := wake (react env w i).

Definition steps (env : Env) (w : World) (inputs : list Input) : World :=
  foldl (step env) w inputs.

(** *** What an input may start *)

(** Events that record a settlement or a throw. *)
Definition passive (e : Event) : Prop :=
  match e with
  | Settled _ _ | Threw _ => True
  | Did _ | Called _ => False
  end.

(** In world [w], input [i] starts only tasks that are [Only okA okM], and
    resumes no call whose id is [hot]. The handler is never started. *)
Definition Startable (okA : Action -> Prop) (okM : string -> Prop) (hot : nat -> Prop)
    (w : World) (i : Input) : Prop :=
  match i with
  | Invoke _ => False
  | Emit event e =>
      Forall (fun r => fst r = event -> Only okA okM (Thread.listener (snd r) e)) (listeners w)
  | WorkerFault e =>
      forall l, onerror w = Some l -> Only okA okM (Thread.listener l (Some e))
  | Receive r => ~ hot (Rpc.response_id r)
  | TransportDies => forall id, ~ hot id
  | TimerElapses =>
      forall cb ms rest, timers w = (cb, ms) :: rest -> Only okA okM (Thread.timer cb)
  | ExitRequested =>
      forall input, ui w = Some input ->
        Only okA okM (App.onExit (exitHook <$> tui_onExit input))
  | CrashScreenExit =>
      forall input, ui w = Some input ->
        Only okA okM (App.handleExit (exitHook <$> tui_onExit input))
  | FetchCalled request => forall env, Only okA okM (fetching env request)
  end.

(** Every pending call that is not [hot] resumes as an [Only] task. *)
Definition pending_only (okA : Action -> Prop) (okM : string -> Prop) (hot : nat -> Prop)
    (w : World) : Prop :=
  forall id k, Rpc.pending (rpc w) !! id = Some k -> ~ hot id ->
    forall o, Only okA okM (k o).

(** Whoever awaits the tui promise has nothing left to do after it. *)
Definition waiters_done (w : World) : Prop :=
  Forall (fun k => k = Done tt) (tuiWaiters w).

(** *** Reading a trace *)

Definition is_call (method : string) (e : Event) : bool :=
  match e with
  | Called msg => String.eqb (Rpc.call_method msg) method
  | _ => false
  end.

(** How many times [client.call(method, ...)] was made. *)
Definition calls (method : string) (tr : list Event) : nat :=
  length (filter (fun e => is_call method e = true) tr).

Definition is_spawn (e : Event) : bool :=
  match e with
  | Did (NewWorker _ _) => true
  | _ => false
  end.

(** How many workers were created. *)
Definition spawns (tr : list Event) : nat :=
  length (filter (fun e => is_spawn e = true) tr).

Arguments calls : simpl never.
Arguments spawns : simpl never.

Definition is_signal (name : string) (i : Input) : bool :=
  match i with
  | Emit event _ => String.eqb event name
  | _ => false
  end.

Definition is_invoke (i : Input) : bool :=
  match i with
  | Invoke _ => true
  | _ => false
  end.

End Loop.

(** ** The worker location and the networking flags as the specification words them *)

Module Claimed.

(** The candidates in the order they are tried: the build-time injected
    path (when there is one), the packaged path, the development path. *)
Definition candidates (env : Env) : list string :=
  option_list (OPENCODE_WORKER_PATH env) ++ [distWorker env; localWorker env].

(** "first existing candidate wins". *)
Definition workerPath (env : Env) : option string :=
  List.find (file_exists env) (candidates env).

(** An argument of the command line that gives [flag]: the flag on its own,
    before its value, or glued to its value with [=]. *)
Definition gives (flag arg : string) : bool :=
  String.eqb arg flag || String.prefix (flag +:+ "=") arg.

(** "an explicit networking flag was present on the invocation". *)
Definition explicitFlag (argv : list string) : bool :=
  existsb (fun arg => gives "--port" arg || gives "--hostname" arg || gives "--mdns" arg)
          argv.

(** "select Server if any of: an explicit networking flag was present on
    the invocation, mdns is true, port != 0, or hostname != 127.0.0.1.
    Otherwise select Direct." *)
Definition selectMode (argv : list string) (networkOpts : NetworkOptions) : Mode :=
  if explicitFlag argv || mdns networkOpts || negb (port networkOpts =? 0) ||
     negb (String.eqb (hostname networkOpts) "127.0.0.1")
  then Server else Direct.

End Claimed.

(** ** Sample environments *)

Module Sample.

(** A platform constructor that refuses a status outside 200..599 and
    otherwise keeps what it is given (header names in lower case). *)
Definition construct (body : string) (status : Z) (headers : Obj) : Outcome Response :=
  if (status <? 200) || (599 <? status)
  then Rejected (RangeError "The status provided is outside the range [200, 599].")
  else Fulfilled {| response_body := body; response_status := status;
                    response_headers := headers |}.

Definition args : Args :=
  {| project := None; model := None; continue := None; session := None;
     prompt := None; agent := None |}.

(** A development checkout: nothing injected, no packaged worker, a terminal
    on stdin, no networking asked for. *)
Definition env : Env :=
  {| process_env := [("HOME", Some "/home/dev"); ("PWD", Some "/work"); ("EDITOR", None)];
     process_cwd := "/work";
     process_argv := ["bun"; "opencode"];
     OPENCODE_WORKER_PATH := None;
     localWorker := "file:///src/cli/cmd/tui/worker.ts";
     distWorker := "file:///src/cli/cmd/tui/cli/cmd/tui/worker.js";
     file_exists := fun p => String.eqb p "file:///src/cli/cmd/tui/worker.ts";
     chdir_throws := fun _ => false;
     path_resolve := fun base p => base +:+ "/" +:+ p;
     stdin_isTTY := true;
     stdin_text := "";
     resolveNetworkOptions := fun _ => {| port := 0; hostname := "127.0.0.1"; mdns := false |};
     new_Response := construct |}.

(** The same with [--port 4096] on the command line. *)
Definition env_port : Env :=
  {| process_env := process_env env;
     process_cwd := process_cwd env;
     process_argv := ["bun"; "opencode"; "--port"; "4096"];
     OPENCODE_WORKER_PATH := None;
     localWorker := localWorker env;
     distWorker := distWorker env;
     file_exists := file_exists env;
     chdir_throws := fun _ => false;
     path_resolve := path_resolve env;
     stdin_isTTY := true;
     stdin_text := "";
     resolveNetworkOptions := fun _ => {| port := 4096; hostname := "127.0.0.1"; mdns := false |};
     new_Response := construct |}.

(** A project directory that cannot be entered. *)
Definition env_no_dir : Env :=
  {| process_env := process_env env;
     process_cwd := process_cwd env;
     process_argv := process_argv env;
     OPENCODE_WORKER_PATH := None;
     localWorker := localWorker env;
     distWorker := distWorker env;
     file_exists := file_exists env;
     chdir_throws := fun _ => true;
     path_resolve := path_resolve env;
     stdin_isTTY := true;
     stdin_text := "";
     resolveNetworkOptions := resolveNetworkOptions env;
     new_Response := construct |}.

(** A build whose injected worker path is not on disk while the packaged
    worker is. *)
Definition env_injected_missing : Env :=
  {| process_env := process_env env;
     process_cwd := process_cwd env;
     process_argv := process_argv env;
     OPENCODE_WORKER_PATH := Some "/opt/opencode/worker.js";
     localWorker := localWorker env;
     distWorker := distWorker env;
     file_exists := fun p => String.eqb p "file:///src/cli/cmd/tui/cli/cmd/tui/worker.js";
     chdir_throws := fun _ => false;
     path_resolve := path_resolve env;
     stdin_isTTY := true;
     stdin_text := "";
     resolveNetworkOptions := resolveNetworkOptions env;
     new_Response := construct |}.

Definition request : Request :=
  {| request_url := "http://opencode.internal/session";
     request_method := "POST";
     request_headers := [("content-type", "application/json")];
     request_body := Some "{}" |}.

End Sample.

(** ** [index.ts]: the dispatcher around the commands *)

Module Main.

(** [process.env.NAME = value]: the entry's value is replaced where the name
    is, and the entry is added at the end otherwise. *)
Fixpoint setenv (name value : string) (entries : list (string * option string))
  : list (string * option string) :=
  match entries with
  | [] => [(name, Some value)]
  | (k, v) :: rest =>
      if String.eqb name k then (k, Some value) :: rest
      else (k, v) :: setenv name value rest
  end.

(** The [level] given to [Log.init]. *)
Definition level (logLevel : option string) (isLocal : bool) : string :=
  match logLevel with
  | Some l => if truthy (Some l) then l else if isLocal then "DEBUG" else "INFO"
  | None => if isLocal then "DEBUG" else "INFO"
  end.

(** What the dispatcher does to the outside. *)
Inductive Effect : Type :=
| LogInit (print dev : bool) (level : string)          (* Log.init({ print, dev, level }) *)
| LogInfo (version : string) (args : list string)      (* Log.Default.info("opencode", ...) *)
| LogFatal (data : list (string * option string))      (* Log.Default.error("fatal", data) *)
| UIError (message : string)                           (* UI.error(message) *)
| ConsoleError (message : string)                      (* console.error(message) *)
| SetExitCode (code : Z)                               (* process.exitCode = code *)
| ShowHelp                                             (* cli.showHelp("log") *)
| ProcessExit (code : option Z).                       (* process.exit(code) *)

(** The middleware that runs before every command: the environment it
    leaves to the command and what it did. *)
Definition middleware (env : Env) (logLevel : option string) (isLocal : bool)
    (version : string) : Env * list Effect :=
  let env' :=
    {| process_env := setenv "OPENCODE" "1" (setenv "AGENT" "1" (process_env env));
       process_cwd := process_cwd env;
       process_argv := process_argv env;
       OPENCODE_WORKER_PATH := OPENCODE_WORKER_PATH env;
       localWorker := localWorker env;
       distWorker := distWorker env;
       file_exists := file_exists env;
       chdir_throws := chdir_throws env;
       path_resolve := path_resolve env;
       stdin_isTTY := stdin_isTTY env;
       stdin_text := stdin_text env;
       resolveNetworkOptions := resolveNetworkOptions env;
       new_Response := new_Response env |} in
  (env',
   [LogInit (includes (process_argv env) "--print-logs") isLocal (level logLevel isLocal);
    LogInfo version (drop 2 (process_argv env))]).

(** What an [Error] carries. *)
Record ErrorFields : Type := mkErrorFields {
  e_name : string;
  e_message : string;
  e_cause : option string;      (* e.cause?.toString() *)
  e_stack : option string
}.

(** What a [ResolveMessage] carries. *)
Record ResolveFields : Type := mkResolveFields {
  r_name : option string;
  r_message : option string;
  r_code : option string;
  r_specifier : option string;
  r_referrer : option string;
  r_position : option string;
  r_importKind : option string
}.

(** A thrown value, by what the [catch] block asks of it. *)
Record Thrown : Type := mkThrown {
  asNamedError : option (list (string * option string));  (* instanceof NamedError: toObject().data *)
  asError : option ErrorFields;                           (* instanceof Error *)
  asResolveMessage : option ResolveFields;                (* instanceof ResolveMessage *)
  asString : string                                       (* String(e) *)
}.

(** [data[k] = v] on the log record. *)
Fixpoint put (k : string) (v : option string) (data : list (string * option string))
  : list (string * option string) :=
  match data with
  | [] => [(k, v)]
  | (k', v') :: rest =>
      if String.eqb k k' then (k', v) :: rest else (k', v') :: put k v rest
  end.

(** [Object.assign(data, source)]. *)
Definition assign (data source : list (string * option string))
  : list (string * option string) :=
  foldl (fun d e => put (fst e) (snd e) d) data source.

(** The [data] logged for a thrown value. *)
Definition fatalData (e : Thrown) : list (string * option string) :=
  let data := [] in
  let data := match asNamedError e with
              | Some d => assign data d
              | None => data
              end in
  let data := match asError e with
              | Some f => assign data [("name", Some (e_name f)); ("message", Some (e_message f));
                                       ("cause", e_cause f); ("stack", e_stack f)]
              | None => data
              end in
  match asResolveMessage e with
  | Some r => assign data [("name", r_name r); ("message", r_message r); ("code", r_code r);
                           ("specifier", r_specifier r); ("referrer", r_referrer r);
                           ("position", r_position r); ("importKind", r_importKind r)]
  | None => data
  end.

(** How [cli.parse()] ended. *)
Inductive Parsed : Type :=
| Returned
| Threw (e : Thrown).

(** The [try]/[catch]/[finally] around [cli.parse()]. [FormatError] is the
    formatter of [./cli/error] ([None]: it returned [undefined]), [logFile]
    is [Log.file()] and [EOL] the line end of [os]. *)
Definition main (FormatError : Thrown -> option string) (logFile EOL : string)
    (parsed : Parsed) : list Effect :=
  match parsed with
  | Returned => [ProcessExit None]
  | Threw e =>
      [LogFatal (fatalData e)] ++
      (let formatted := FormatError e in
       (if truthy formatted
        then match formatted with Some text => [UIError text] | None => [] end
        else []) ++
       (match formatted with
        | None =>
            [UIError ("Unexpected error, check log file at " +:+ logFile +:+
                      " for more details" +:+ EOL);
             ConsoleError (match asError e with
                           | Some f => e_message f
                           | None => asString e
                           end)]
        | Some _ => []
        end)) ++
      [SetExitCode 1] ++
      [ProcessExit None]
  end.

(** The exit status the process ends with: [process.exit()] without a code
    takes [process.exitCode], which is 0 unless set. *)
Fixpoint exitStatus (code : Z) (effects : list Effect) : option Z :=
  match effects with
  | [] => None
  | SetExitCode c :: rest => exitStatus c rest
  | ProcessExit (Some c) :: _ => Some c
  | ProcessExit None :: _ => Some code
  | _ :: rest => exitStatus code rest
  end.

(** How the [.fail] handler ends: it rethrows the error or exits. *)
Inductive FailEnd : Type :=
| Rethrow (err : Thrown)
| Exit (code : Z).

(** The [.fail((msg, err) => ...)] handler of the command line parser. *)
Definition fail (msg : option string) (err : option Thrown) : list Effect * FailEnd :=
  let usage :=
    match msg with
    | Some m => String.prefix "Unknown argument" m ||
                String.prefix "Not enough non-option arguments" m ||
                String.prefix "Invalid values:" m
    | None => false                      (* msg?.startsWith(...) is undefined *)
    end in
  if usage then
    match err with
    | Some e => ([], Rethrow e)          (* if (err) throw err *)
    | None => ([ShowHelp], Exit 1)       (* cli.showHelp("log"), then process.exit(1) *)
    end
  else
    match err with
    | Some e => ([], Rethrow e)
    | None => ([], Exit 1)
    end.

(** The messages shown with [UI.error], in order. *)
Definition uiErrors (effects : list Effect) : list string :=
  omap (fun e => match e with UIError m => Some m | _ => None end) effects.

(** The messages written with [console.error], in order. *)
Definition consoleErrors (effects : list Effect) : list string :=
  omap (fun e => match e with ConsoleError m => Some m | _ => None end) effects.

(** The exits of the process among the effects. *)
Definition exits (effects : list Effect) : list (option Z) :=
  omap (fun e => match e with ProcessExit c => Some c | _ => None end) effects.

(** How [cli.parse()] ends for a command whose handler ran to its end
    without awaiting anything: what it did, and whether it threw.
    [classify] says what the [catch] block sees of a thrown error. *)
Fixpoint ranToEnd (classify : Error -> Thrown) (t : Task unit)
  : option (list Action * Parsed) :=
  match t with
  | Done _ => Some ([], Returned)
  | Throw e => Some ([], Threw (classify e))
  | Act a k =>
      match ranToEnd classify k with
      | Some (acts, p) => Some (a :: acts, p)
      | None => None
      end
  | Await _ _ _ => None
  | AwaitTui _ => None
  end.

End Main.

(** ** [app.tsx]: what the application component wires up *)

Module AppUi.

(** A key press as the handler reads it. *)
Record KeyEvent : Type := mkKeyEvent {
  ctrl : bool;
  name : string
}.

(** The button of a mouse event: [MouseButton.RIGHT] or another one. *)
Inductive MouseButton : Type :=
| RIGHT
| OtherButton (code : Z).

(** What a handler does: effects of [Selection] and the two calls that keep
    an event from going further. *)
Inductive UiEffect : Type :=
| Sel (e : Selection.Effect)
| PreventDefault            (* evt.preventDefault() *)
| StopPropagation.          (* evt.stopPropagation() *)

(** The keyboard handler of the selection. [flag] is
    [Flag.OPENCODE_EXPERIMENTAL_DISABLE_COPY_ON_SELECT]. *)
Definition onKey (flag : bool) (renderer : Selection.Renderer) (evt : KeyEvent)
  : Selection.Renderer * list UiEffect :=
  if negb flag then (renderer, [])
  else
    match Selection.getSelection renderer with
    | None => (renderer, [])
    | Some _ =>
        if ctrl evt && String.eqb (name evt) "c" then
          let '(copied, renderer', effects) := Selection.copy renderer in
          if negb copied
          then (Selection.clearSelection renderer',
                map Sel effects ++ [Sel Selection.ClearSelection])
          else (renderer', map Sel effects ++ [PreventDefault; StopPropagation])
        else if String.eqb (name evt) "escape" then
          (Selection.clearSelection renderer,
           [Sel Selection.ClearSelection; PreventDefault; StopPropagation])
        else
          (Selection.clearSelection renderer, [Sel Selection.ClearSelection])
    end.

(** [onMouseDown] of the root box. *)
Definition onMouseDown (flag : bool) (renderer : Selection.Renderer) (button : MouseButton)
  : Selection.Renderer * list UiEffect :=
  if negb flag then (renderer, [])
  else
    match button with
    | OtherButton _ => (renderer, [])
    | RIGHT =>
        let '(copied, renderer', effects) := Selection.copy renderer in
        if negb copied then (renderer', map Sel effects)
        else (renderer', map Sel effects ++ [PreventDefault; StopPropagation])
    end.

(** [onMouseUp] of the root box: [undefined] when the flag is set, a copy of
    the selection otherwise. *)
Definition onMouseUp (flag : bool) (renderer : Selection.Renderer)
  : Selection.Renderer * list UiEffect :=
  if flag then (renderer, [])
  else
    let '(_, renderer', effects) := Selection.copy renderer in
    (renderer', map Sel effects).

(** [renderer.console.onCopySelection]; [clipboard] is how
    [Clipboard.copy(text)] settles, which the handler awaits. *)
Definition onCopySelection (text : string) (clipboard : Outcome unit)
    (renderer : Selection.Renderer) : Selection.Renderer * list Selection.Effect :=
  if negb (truthy (Some text)) || (String.length text =? 0)%nat then (renderer, [])
  else
    (Selection.clearSelection renderer,
     [Selection.ClipboardCopy text] ++ Selection.copied clipboard ++
     [Selection.ClearSelection]).

(** Whether the text went to the clipboard. *)
Definition wrote_clipboard (effects : list UiEffect) : bool :=
  existsb (fun e => match e with Sel (Selection.ClipboardCopy _) => true | _ => false end)
          effects.

(** Whether the event was kept from going further. *)
Definition consumed (effects : list UiEffect) : bool :=
  existsb (fun e => match e with PreventDefault => true | _ => false end) effects &&
  existsb (fun e => match e with StopPropagation => true | _ => false end) effects.

(** *** Routes, sessions and the terminal title *)

(** The [Route] of [context/route.tsx], without the optional
    [initialPrompt], which nothing here reads. *)
Inductive Route : Type :=
| HomeRoute
| SessionRoute (sessionID : string).

(** What is read of a session. *)
Record SessionInfo : Type := mkSessionInfo {
  id : string;
  title : Str;                    (* measured and cut below: its UTF-16 code units *)
  parentID : option string;
  updated : Z                     (* time.updated *)
}.

(** The title the effect gives the terminal, if it sets one. [enabled] is
    [terminalTitleEnabled()], [disabled] is [Flag.OPENCODE_DISABLE_TERMINAL_TITLE],
    [get] is [sync.session.get] and [isDefaultTitle] is [SessionApi.isDefaultTitle].
    Titles are sequences of UTF-16 code units, which is what [length] counts
    and [slice] cuts (also in the middle of a surrogate pair). *)
Definition terminalTitle (enabled disabled : bool) (route : Route)
    (get : string -> option SessionInfo) (isDefaultTitle : Str -> bool)
  : option Str :=
  if negb enabled || disabled then None
  else
    match route with
    | HomeRoute => Some (units "OpenCode")
    | SessionRoute sessionID =>
        match get sessionID with
        | None => Some (units "OpenCode")
        | Some session =>
            if isDefaultTitle (title session) then Some (units "OpenCode")
            else
              let shown :=
                if (40 <? length (title session))%nat
                then slice0 37 (title session) ++ units "..."
                else title session in
              Some (units "OC | " ++ shown)
        end
    end.

(** *** Arguments handled on mount and by the effects *)

Record AppArgs : Type := mkAppArgs {
  arg_agent : option string;
  arg_model : option string;
  arg_sessionID : option string;
  arg_continue : option bool;
  arg_fork : option bool
}.

(** Truthiness of a [boolean | undefined]. *)
Definition on (b : option bool) : bool := default false b.

Inductive AppEffect : Type :=
| SetAgent (agent : string)                               (* local.agent.set(agent) *)
| SetModel (providerID modelID : string)                  (* local.model.set({...}, { recent: true }) *)
| ShowToast (variant message : string) (duration : option Z)
| Navigate (route : Route)                                (* route.navigate(route) *)
| Fork (sessionID : string).                              (* sdk.client.session.fork({ sessionID }) *)

(** The [onMount] callback; [parseModel] is [Provider.parseModel]. *)
Definition onMount (parseModel : string -> option string * option string)
    (args : AppArgs) : list AppEffect :=
  let agentPart :=
    match arg_agent args with
    | Some a => if truthy (Some a) then [SetAgent a] else []
    | None => []
    end in
  let sessionPart :=
    match arg_sessionID args with
    | Some s => if truthy (Some s) && negb (on (arg_fork args))
                then [Navigate (SessionRoute s)] else []
    | None => []
    end in
  match arg_model args with
  | Some m =>
      if truthy (Some m) then
        match parseModel m with
        | (Some providerID, Some modelID) =>
            if negb (truthy (Some providerID)) || negb (truthy (Some modelID))
            then agentPart ++ [ShowToast "warning" ("Invalid model format: " +:+ m) (Some 3000)]
            else agentPart ++ [SetModel providerID modelID] ++ sessionPart
        | _ =>
            agentPart ++ [ShowToast "warning" ("Invalid model format: " +:+ m) (Some 3000)]
        end
      else agentPart ++ sessionPart
  | None => agentPart ++ sessionPart
  end.

(** [sync.status]. *)
Inductive SyncStatus : Type := loading | partial | complete.

(** One step of [toSorted((a, b) => b.time.updated - a.time.updated)]: [x]
    goes before the first session that is not more recent than it. *)
Fixpoint insertSession (x : SessionInfo) (sorted : list SessionInfo) : list SessionInfo :=
  match sorted with
  | [] => [x]
  | y :: rest =>
      if (updated y - updated x <=? 0) then x :: y :: rest
      else y :: insertSession x rest
  end.

(** [sessions.toSorted((a, b) => b.time.updated - a.time.updated)]: most
    recently updated first, sessions of equal time in their given order. *)
Definition toSorted (sessions : list SessionInfo) : list SessionInfo :=
  foldr insertSession [] sessions.

Definition isRoot (x : SessionInfo) : bool :=
  match parentID x with
  | None => true
  | Some _ => false
  end.

(** The [match] of the [--continue] effect. *)
Definition continueMatch (sessions : list SessionInfo) : option string :=
  id <$> List.find isRoot (toSorted sessions).

(** One run of the [--continue] effect: the new [continued] and what the run
    asked for. *)
Definition continueEffect (args : AppArgs) (continued : bool)
    (status : SyncStatus) (sessions : list SessionInfo) : bool * list AppEffect :=
  if continued || (match status with loading => true | _ => false end) ||
     negb (on (arg_continue args))
  then (continued, [])
  else
    match continueMatch sessions with
    | Some sid =>
        if truthy (Some sid) then
          (true, if on (arg_fork args) then [Fork sid] else [Navigate (SessionRoute sid)])
        else (continued, [])
    | None => (continued, [])
    end.

(** One run of the effect that forks the session given with [--session]. *)
Definition forkEffect (args : AppArgs) (forked : bool) (status : SyncStatus)
  : bool * list AppEffect :=
  if forked || (match status with complete => false | _ => true end) ||
     negb (truthy (arg_sessionID args)) || negb (on (arg_fork args))
  then (forked, [])
  else
    match arg_sessionID args with
    | Some sid => (true, [Fork sid])
    | None => (forked, [])
    end.

(** What both fork requests do with the answer: [result.data?.id]. *)
Definition forkSettled (resultId : option string) : list AppEffect :=
  match resultId with
  | Some sid => if truthy (Some sid) then [Navigate (SessionRoute sid)]
                else [ShowToast "error" "Failed to fork session" None]
  | None => [ShowToast "error" "Failed to fork session" None]
  end.

(** The effects re-run whenever what they read changes: the runs of the
    [--continue] effect over successive states of the sync store, from
    [continued]. *)
Fixpoint continueRuns (args : AppArgs) (continued : bool)
    (states : list (SyncStatus * list SessionInfo)) : list AppEffect :=
  match states with
  | [] => []
  | (status, sessions) :: rest =>
      let '(continued', effects) := continueEffect args continued status sessions in
      effects ++ continueRuns args continued' rest
  end.

(** The runs of the fork effect over successive sync statuses. *)
Fixpoint forkRuns (args : AppArgs) (forked : bool) (statuses : list SyncStatus)
  : list AppEffect :=
  match statuses with
  | [] => []
  | status :: rest =>
      let '(forked', effects) := forkEffect args forked status in
      effects ++ forkRuns args forked' rest
  end.

End AppUi.

(** ** Invariants used below *)

(** While the process runs, reloads come from the signal alone. *)
Module Reloads.

(** Actions that neither create a worker nor touch the listeners. *)
Definition okA (a : Action) : Prop :=
  match a with
  | NewWorker _ _ | ProcessOn _ _ | WorkerOnError _ => False
  | _ => True
  end.

Definition okM (method : string) : Prop := method <> "reload".

Definition cold (id : nat) : Prop := False.

(** The listeners the handler registers on [process]. *)
Definition registered : list (string * Listener) :=
  [("uncaughtException", LogTheError); ("unhandledRejection", LogTheError);
   ("SIGUSR2", Reload)].

(** [n] reload calls so far, one worker, the handler's listeners, and
    nothing suspended that could add a reload, a worker or a listener. *)
Definition Inv (n : nat) (w : Loop.World) : Prop :=
  Loop.listeners w = registered /\
  Loop.onerror w = Some LogTheError /\
  Loop.calls "reload" (Loop.trace w) = n /\
  Loop.spawns (Loop.trace w) = 1%nat /\
  Loop.pending_only okA okM cold w /\
  Loop.waiters_done w.

End Reloads.

(** From the launch of the TUI to its exit. *)
Module Exits.

(** Actions that neither resolve the tui promise nor replace the RPC client,
    and that launch the TUI, if they do, with the shutdown callback. *)
Definition okA (a : Action) : Prop :=
  match a with
  | ResolveTui | RpcClient => False
  | Tui input => tui_onExit input = Some Shutdown
  | _ => True
  end.

Definition okM (method : string) : Prop := method <> "shutdown".

Definition cold (id : nat) : Prop := False.

(** No exit has been asked for: the tui promise is unresolved, no shutdown
    call was made, and nothing suspended could do either. *)
Definition Running (w : Loop.World) : Prop :=
  Loop.tuiResolved w = false /\
  Loop.calls "shutdown" (Loop.trace w) = 0%nat /\
  (forall input, Loop.ui w = Some input -> tui_onExit input = Some Shutdown) /\
  Loop.pending_only okA okM cold w /\
  Loop.waiters_done w.

(** The exit path awaits the shutdown call [id]: the promise is unresolved,
    the one shutdown call is pending, its continuation resolves the promise
    on fulfilment and throws on rejection, and nothing else suspended could
    resolve the promise or call shutdown. *)
Definition Exiting (id : nat) (w : Loop.World) : Prop :=
  Loop.tuiResolved w = false /\
  Loop.calls "shutdown" (Loop.trace w) = 1%nat /\
  (exists k, Rpc.pending (Loop.rpc w) !! id = Some k /\
             (forall r, k (Fulfilled r) = Act ResolveTui (Done tt)) /\
             (forall e, k (Rejected e) = Throw e)) /\
  (id < Rpc.next (Loop.rpc w))%nat /\
  Loop.pending_only okA okM (fun i => i = id) w /\
  Loop.waiters_done w.

(** Inputs other than a run of the handler and a request to exit. *)
Definition before_exit (i : Loop.Input) : bool :=
  match i with
  | Loop.Invoke _ | Loop.ExitRequested | Loop.CrashScreenExit => false
  | _ => true
  end.

(** Inputs that leave the shutdown call [id] pending: anything but its
    response, the death of the transport, a run of the handler or a second
    request to exit. *)
Definition awaiting (id : nat) (i : Loop.Input) : bool :=
  match i with
  | Loop.Invoke _ | Loop.ExitRequested | Loop.CrashScreenExit
  | Loop.TransportDies => false
  | Loop.Receive r => negb (Nat.eqb (Rpc.response_id r) id)
  | _ => true
  end.

(** The two ways out of the TUI: the exit of the application and the exit
    of the crash screen. *)
Definition is_exit (i : Loop.Input) : bool :=
  match i with
  | Loop.ExitRequested | Loop.CrashScreenExit => true
  | _ => false
  end.

End Exits.

(** What the [--continue] effect relies on. *)
Module Continue.

(** Sessions from the most to the least recently updated, as [toSorted]
    leaves them. *)
Inductive Descending : list AppUi.SessionInfo -> Prop :=
| Descending_nil : Descending []
| Descending_cons (x : AppUi.SessionInfo) (rest : list AppUi.SessionInfo) :
    Forall (fun y => AppUi.updated y <= AppUi.updated x) rest ->
    Descending rest ->
    Descending (x :: rest).

(** A state of the sync store in which the effect finds nothing to continue:
    the store is still loading, or no root session has a usable id. *)
Definition idle (state : AppUi.SyncStatus * list AppUi.SessionInfo) : Prop :=
  fst state = AppUi.loading \/
  AppUi.continueMatch (snd state) = None \/
  AppUi.continueMatch (snd state) = Some "".

(** What the effect asks for once it has picked [sid]. *)
Definition request (args : AppUi.AppArgs) (sid : string) : AppUi.AppEffect :=
  if AppUi.on (AppUi.arg_fork args) then AppUi.Fork sid
  else AppUi.Navigate (AppUi.SessionRoute sid).

End Continue.

(** * Properties *)

(** ** The RPC client: every call settles exactly once *)

Section RpcFacts.
Context {P R K : Type}.
Implicit Types (st : Rpc.Run P R K) (rest : list (Rpc.Input P R K)) (id : nat).

Lemma run_from_app st (h rest : list (Rpc.Input P R K)) :
  Rpc.run_from st (h ++ rest) = Rpc.run_from (Rpc.run_from st h) rest.
Proof. unfold Rpc.run_from. apply foldl_app. Qed.

(** The rejections a dying transport hands out contain a call exactly when
    it is pending, and then once. *)
Lemma close_settles_pending id (m : gmap nat K) :
  map snd (filter (fun e : nat * Outcome R => fst e = id)
             (map (fun e : nat * K => (fst e, Rejected ChannelClosed)) (map_to_list m)))
  = match m !! id with
    | Some _ => [Rejected ChannelClosed]
    | None => []
    end.
Proof.
  induction m as [|i k m Hi Hfirst IH] using map_first_key_ind.
  - by rewrite map_to_list_empty.
  - rewrite map_to_list_insert_first_key by done. cbn [map].
    rewrite filter_cons. cbn [fst].
    destruct (decide (i = id)) as [->|Hne].
    + rewrite lookup_insert_eq. cbn [map snd]. f_equal.
      rewrite IH, Hi. done.
    + rewrite lookup_insert_ne by done. apply IH.
Qed.

Lemma step_arrive_hit st (r : Rpc.Response R) (k : K) :
  Rpc.pending (Rpc.chan st) !! Rpc.response_id r = Some k ->
  Rpc.step st (Rpc.Arrive r)
  = {| Rpc.chan := {| Rpc.next := Rpc.next (Rpc.chan st);
                      Rpc.pending := delete (Rpc.response_id r) (Rpc.pending (Rpc.chan st)) |};
       Rpc.sent := Rpc.sent st;
       Rpc.settled := Rpc.settled st ++ [(Rpc.response_id r, Rpc.response_outcome r)] |}.
Proof. intros H. unfold Rpc.step, Rpc.receive. by rewrite H. Qed.

Lemma step_arrive_miss st (r : Rpc.Response R) :
  Rpc.pending (Rpc.chan st) !! Rpc.response_id r = None ->
  Rpc.step st (Rpc.Arrive r) = st.
Proof. intros H. unfold Rpc.step, Rpc.receive. rewrite H. by destruct st. Qed.

Lemma step_die st :
  Rpc.step st Rpc.Die
  = {| Rpc.chan := {| Rpc.next := Rpc.next (Rpc.chan st); Rpc.pending := ∅ |};
       Rpc.sent := Rpc.sent st;
       Rpc.settled :=
         Rpc.settled st ++ map (fun e : nat * K => (fst e, Rejected ChannelClosed))
                               (map_to_list (Rpc.pending (Rpc.chan st))) |}.
Proof. reflexivity. Qed.

Lemma settlements_snoc id st (c : Rpc.Channel K) (s : list (Rpc.Call P))
    (rid : nat) (o : Outcome R) :
  Rpc.settlements id (Rpc.mkRun c s (Rpc.settled st ++ [(rid, o)]))
  = Rpc.settlements id st ++ (if decide (rid = id) then [o] else []).
Proof.
  unfold Rpc.settlements. cbn. rewrite filter_app, map_app, filter_cons. cbn.
  by destruct (decide (rid = id)).
Qed.

Lemma settlements_close id st (c : Rpc.Channel K) (s : list (Rpc.Call P)) :
  Rpc.settlements id
    (Rpc.mkRun c s
       (Rpc.settled st ++ map (fun e : nat * K => (fst e, Rejected ChannelClosed))
                              (map_to_list (Rpc.pending (Rpc.chan st)))))
  = Rpc.settlements id st ++
      match Rpc.pending (Rpc.chan st) !! id with
      | Some _ => [Rejected ChannelClosed]
      | None => []
      end.
Proof.
  unfold Rpc.settlements. cbn. by rewrite filter_app, map_app, close_settles_pending.
Qed.

Lemma fresh_above_start : Rpc.fresh_above (@Rpc.start P R K).
Proof. intros id _. split; [apply lookup_empty | reflexivity]. Qed.

Lemma fresh_above_step st i : Rpc.fresh_above st -> Rpc.fresh_above (Rpc.step st i).
Proof.
  intros Hst id Hid. destruct i as [method payload k | r | ].
  - cbn in *. destruct (Hst id ltac:(lia)) as [Hp Hs]. split; [|exact Hs].
    rewrite lookup_insert_ne by lia. exact Hp.
  - destruct (Rpc.pending (Rpc.chan st) !! Rpc.response_id r) as [k|] eqn:Hr.
    + rewrite (step_arrive_hit _ _ _ Hr) in *. cbn in Hid.
      destruct (Hst id Hid) as [Hp Hs].
      assert (Rpc.response_id r <> id) as Hne by congruence.
      split; [cbn; by rewrite lookup_delete_ne|].
      rewrite settlements_snoc, Hs. by destruct (decide (Rpc.response_id r = id)).
    + rewrite (step_arrive_miss _ _ Hr) in *. exact (Hst id Hid).
  - rewrite step_die in *. cbn in Hid. destruct (Hst id Hid) as [Hp Hs].
    split; [apply lookup_empty|]. by rewrite settlements_close, Hs, Hp.
Qed.

Lemma fresh_above_run_from st rest :
  Rpc.fresh_above st -> Rpc.fresh_above (Rpc.run_from st rest).
Proof.
  revert st. induction rest as [|i rest IH]; intros st Hst; [exact Hst|].
  cbn. apply IH, fresh_above_step, Hst.
Qed.

(** One input leaves a call that is not pending as it is. *)
Lemma step_not_pending id st i :
  Rpc.pending (Rpc.chan st) !! id = None ->
  (id < Rpc.next (Rpc.chan st))%nat ->
  Rpc.pending (Rpc.chan (Rpc.step st i)) !! id = None /\
  (id < Rpc.next (Rpc.chan (Rpc.step st i)))%nat /\
  Rpc.settlements id (Rpc.step st i) = Rpc.settlements id st.
Proof.
  intros Hp Hlt. destruct i as [method payload k | r | ].
  - cbn. split_and!; [|lia|done]. rewrite lookup_insert_ne by lia. exact Hp.
  - destruct (Rpc.pending (Rpc.chan st) !! Rpc.response_id r) as [k|] eqn:Hr.
    + rewrite (step_arrive_hit _ _ _ Hr).
      assert (Rpc.response_id r <> id) as Hne by congruence.
      split_and!; [cbn; by rewrite lookup_delete_ne|done|].
      rewrite settlements_snoc.
      destruct (decide (Rpc.response_id r = id)); [done|]. by rewrite app_nil_r.
    + by rewrite (step_arrive_miss _ _ Hr).
  - rewrite step_die. split_and!; [apply lookup_empty|done|].
    by rewrite settlements_close, Hp, app_nil_r.
Qed.

(** A call that is no longer pending is never settled again. *)
Lemma settled_stays id st rest :
  Rpc.pending (Rpc.chan st) !! id = None ->
  (id < Rpc.next (Rpc.chan st))%nat ->
  Rpc.settlements id (Rpc.run_from st rest) = Rpc.settlements id st /\
  Rpc.pending (Rpc.chan (Rpc.run_from st rest)) !! id = None.
Proof.
  revert st. induction rest as [|i rest IH]; intros st Hp Hlt; [done|].
  destruct (step_not_pending id st i Hp Hlt) as (Hp' & Hlt' & Hs').
  destruct (IH _ Hp' Hlt') as [Hs Hq].
  change (Rpc.run_from st (i :: rest)) with (Rpc.run_from (Rpc.step st i) rest).
  by rewrite Hs, Hs'.
Qed.

(** One input on a pending call: it settles the call if it is a response
    with the call's id or the death of the transport, and leaves it pending
    otherwise. *)
Lemma step_pending id (k : K) st i :
  Rpc.pending (Rpc.chan st) !! id = Some k ->
  (id < Rpc.next (Rpc.chan st))%nat ->
  (id < Rpc.next (Rpc.chan (Rpc.step st i)))%nat /\
  Rpc.settlements id (Rpc.step st i)
    = Rpc.settlements id st ++ option_list (Rpc.verdict id [i]) /\
  Rpc.pending (Rpc.chan (Rpc.step st i)) !! id
    = match Rpc.verdict id [i] with Some _ => None | None => Some k end.
Proof.
  intros Hp Hlt. destruct i as [method payload k' | r | ]; cbn [Rpc.verdict].
  - cbn. split_and!; [lia|by rewrite app_nil_r|].
    rewrite lookup_insert_ne by lia. exact Hp.
  - destruct (decide (Rpc.response_id r = id)) as [Heq|Hne].
    + rewrite <- Heq in Hp. rewrite (step_arrive_hit _ _ _ Hp), settlements_snoc.
      rewrite decide_True by done. cbn. split_and!; [done|done|].
      rewrite <- Heq. apply lookup_delete_eq.
    + destruct (Rpc.pending (Rpc.chan st) !! Rpc.response_id r) as [k'|] eqn:Hr.
      * rewrite (step_arrive_hit _ _ _ Hr), settlements_snoc.
        rewrite decide_False by done. cbn.
        split_and!; [done|done|by rewrite lookup_delete_ne].
      * rewrite (step_arrive_miss _ _ Hr). cbn. by rewrite app_nil_r.
  - rewrite step_die. split_and!; [done| |apply lookup_empty].
    by rewrite settlements_close, Hp.
Qed.

(** A pending call is settled by the first matching response or by the
    death of the transport, and by nothing else. *)
Lemma pending_settles id (k : K) st rest :
  Rpc.pending (Rpc.chan st) !! id = Some k ->
  (id < Rpc.next (Rpc.chan st))%nat ->
  Rpc.settlements id (Rpc.run_from st rest)
    = Rpc.settlements id st ++ option_list (Rpc.verdict id rest) /\
  Rpc.pending (Rpc.chan (Rpc.run_from st rest)) !! id
    = match Rpc.verdict id rest with Some _ => None | None => Some k end.
Proof.
  revert st. induction rest as [|i rest IH]; intros st Hp Hlt.
  { cbn. by rewrite app_nil_r. }
  change (Rpc.run_from st (i :: rest)) with (Rpc.run_from (Rpc.step st i) rest).
  destruct (step_pending id k st i Hp Hlt) as (Hlt' & Hs' & Hp').
  destruct (Rpc.verdict id [i]) as [o|] eqn:Hv.
  - destruct (settled_stays id (Rpc.step st i) rest Hp' Hlt') as [Hs Hq].
    rewrite Hs, Hq, Hs'.
    assert (Rpc.verdict id (i :: rest) = Some o) as ->; [|done].
    destruct i as [? ? ?|r|]; cbn in *; [done| |done].
    by destruct (decide (Rpc.response_id r = id)).
  - assert (Rpc.verdict id (i :: rest) = Rpc.verdict id rest) as ->.
    { destruct i as [? ? ?|r|]; cbn in *; [done| |done].
      by destruct (decide (Rpc.response_id r = id)). }
    destruct (IH _ Hp' Hlt') as [Hs Hq]. rewrite Hs, Hq, Hs'. cbn.
    by rewrite app_nil_r.
Qed.

End RpcFacts.

(** C2. Every call issued on the channel settles exactly once. Whatever
    happened before the call and whatever follows it, the call gets the next
    id, its message is the one put on the transport, and the settlements of
    its promise are exactly what the inputs after it decide: none while
    neither a response with its id nor the death of the transport has come
    (the call is then still pending, with its own resolver), and otherwise
    exactly one: fulfilled with the result of the first matching response,
    rejected with the reconstructed error if that response carries one, or
    rejected as channel closed if the transport died first. *)
Theorem rpc_call_settles_exactly_once
    {P R K : Type} (h rest : list (Rpc.Input P R K))
    (method : string) (payload : P) (k : K) :
  let id := Rpc.next (Rpc.chan (Rpc.run h)) in
  let st := Rpc.run (h ++ Rpc.Issue method payload k :: rest) in
  Rpc.sent (Rpc.run (h ++ [Rpc.Issue method payload k]))
    = Rpc.sent (Rpc.run h) ++ [Rpc.mkCall id method payload] /\
  Rpc.settlements id st = option_list (Rpc.verdict id rest) /\
  (length (Rpc.settlements id st) <= 1)%nat /\
  Rpc.pending (Rpc.chan st) !! id
    = match Rpc.verdict id rest with Some _ => None | None => Some k end.
Proof.
  intros id st.
  assert (Rpc.fresh_above (Rpc.run h)) as Hfresh
    by apply fresh_above_run_from, fresh_above_start.
  destruct (Hfresh id ltac:(lia)) as [Hp Hs].
  assert (Rpc.run (h ++ [Rpc.Issue method payload k])
          = Rpc.step (Rpc.run h) (Rpc.Issue method payload k)) as Hone.
  { unfold Rpc.run. by rewrite run_from_app. }
  assert (st = Rpc.run_from (Rpc.step (Rpc.run h) (Rpc.Issue method payload k)) rest)
    as Hst.
  { unfold st, Rpc.run. by rewrite run_from_app. }
  destruct (pending_settles id k (Rpc.step (Rpc.run h) (Rpc.Issue method payload k)) rest)
    as [Hset Hpend].
  { cbn. apply lookup_insert_eq. }
  { cbn. fold id. lia. }
  split_and!.
  - rewrite Hone. reflexivity.
  - rewrite Hst, Hset. cbn in Hs |- *. unfold Rpc.settlements in *. cbn. by rewrite Hs.
  - rewrite Hst, Hset. unfold Rpc.settlements in *. cbn. cbn in Hs. rewrite Hs. cbn.
    destruct (Rpc.verdict id rest); cbn; lia.
  - rewrite Hst. exact Hpend.
Qed.

(** ** Mode selection *)





Example mode_no_flags :
  Thread.selectMode ["bun"; "opencode"] (mkNetworkOptions 0 "127.0.0.1" false) = Direct.
Proof. reflexivity. Qed.

Example mode_port_4096 :
  Thread.selectMode ["bun"; "opencode"] (mkNetworkOptions 4096 "127.0.0.1" false) = Server.
Proof. reflexivity. Qed.

Example mode_flag_with_default_value :
  Thread.selectMode ["bun"; "opencode"; "--port"; "0"]
                    (mkNetworkOptions 0 "127.0.0.1" false) = Server.
Proof. reflexivity. Qed.

(** The flag test is [Array.includes]: a flag glued to its value is another
    element of the command line. *)
Example mode_flag_glued_to_value :
  Thread.selectMode ["bun"; "opencode"; "--port=0"]
                    (mkNetworkOptions 0 "127.0.0.1" false) = Direct.
Proof. reflexivity. Qed.

(** ** The custom fetch *)





(** The round trip of the specification, on a platform that keeps what the
    constructor is given. *)
Example fetch_hello :
  let w1 := Loop.run (Loop.fetching Sample.env Sample.request) Loop.boot in
  let result := {| sres_body := "hello"; sres_status := 200;
                   sres_headers := {["x" := "1"]} |} in
  Loop.trace (Loop.react Sample.env w1 (Loop.Receive (Rpc.Result 0%nat (RFetch result))))
  = [Loop.Called (Rpc.mkCall 0%nat "fetch"
                    (PFetch {| sreq_url := "http://opencode.internal/session";
                               sreq_method := "POST";
                               sreq_headers := {["content-type" := "application/json"]};
                               sreq_body := Some "{}" |}));
     Loop.Settled 0%nat (Fulfilled (RFetch result));
     Loop.Did (FetchReturned {| response_body := "hello"; response_status := 200;
                                response_headers := {["x" := "1"]} |})].
Proof. vm_compute. reflexivity. Qed.

(** A result the constructor refuses: the fetch throws, no response is
    returned. *)
Example fetch_status_out_of_range :
  let w1 := Loop.run (Loop.fetching Sample.env Sample.request) Loop.boot in
  let result := {| sres_body := "hello"; sres_status := 600; sres_headers := ∅ |} in
  Loop.trace (Loop.react Sample.env w1 (Loop.Receive (Rpc.Result 0%nat (RFetch result))))
  = Loop.trace w1 ++
    [Loop.Settled 0%nat (Fulfilled (RFetch result));
     Loop.Threw (RangeError "The status provided is outside the range [200, 599].")].
Proof. vm_compute. reflexivity. Qed.

(** C4. The payload of the ["fetch"] call has a [body] field exactly when the
    request has a body: without one the serialized payload has the fields
    [url], [method], [headers] and no [body]; with one, also with the empty
    string, the field is there and holds the text. *)
Theorem fetch_body_field (env : Env) (w : Loop.World) (request : Request) :
  exists msg,
    Loop.trace (Loop.run (Loop.fetching env request) w) = Loop.trace w ++ [Loop.Called msg] /\
    Rpc.call_method msg = "fetch" /\
    Wire.field_names (Wire.payload_json (Rpc.call_payload msg))
      = ["url"; "method"; "headers"] ++
        (if request_body request is Some _ then ["body"] else []) /\
    Wire.get_field "body" (Wire.payload_json (Rpc.call_payload msg))
      = Wire.JString <$> request_body request.
Proof.
  eexists. split; [|split; [|split]].
  - cbn. reflexivity.
  - reflexivity.
  - cbn. by destruct (request_body request).
  - cbn. by destruct (request_body request).
Qed.

Example fetch_no_body_payload :
  Wire.payload_json
    (PFetch {| sreq_url := "http://opencode.internal/doc"; sreq_method := "GET";
               sreq_headers := ∅; sreq_body := None |})
  = Some (Wire.JObject [("url", Wire.JString "http://opencode.internal/doc");
                        ("method", Wire.JString "GET");
                        ("headers", Wire.JObject [])]).
Proof. reflexivity. Qed.

Example fetch_empty_body_payload :
  Wire.payload_json
    (PFetch {| sreq_url := "http://opencode.internal/doc"; sreq_method := "POST";
               sreq_headers := ∅; sreq_body := Some "" |})
  = Some (Wire.JObject [("url", Wire.JString "http://opencode.internal/doc");
                        ("method", Wire.JString "POST");
                        ("headers", Wire.JObject []);
                        ("body", Wire.JString "")]).
Proof. reflexivity. Qed.

(** ** Worker location *)

(** C6, as stated, fails: an injected path wins without being looked for on
    disk. Here it is missing while the packaged worker exists; the first
    existing candidate is the packaged worker, the code takes the injected
    path. *)
Lemma worker_path_not_first_existing :
  Claimed.workerPath Sample.env_injected_missing
    = Some "file:///src/cli/cmd/tui/cli/cmd/tui/worker.js" /\
  Thread.workerPath Sample.env_injected_missing = "/opt/opencode/worker.js" /\
  Claimed.workerPath Sample.env_injected_missing
    <> Some (Thread.workerPath Sample.env_injected_missing).
Proof. split_and!; [reflexivity|reflexivity|discriminate]. Qed.

(** C6, amended. The worker path is one of the three candidates, taken in
    this order: the injected path whenever one is defined (on disk or not);
    else the packaged path if it exists on disk; else the development path
    (on disk or not). It is the first existing candidate whenever the
    injected path, if any, and the development path exist. The handler
    resolves it once: the one worker it creates gets this path. *)
Theorem worker_path_resolution (env : Env) (args : Args) :
  In (Thread.workerPath env) (Claimed.candidates env) /\
  (forall injected, OPENCODE_WORKER_PATH env = Some injected ->
     Thread.workerPath env = injected) /\
  (OPENCODE_WORKER_PATH env = None -> file_exists env (distWorker env) = true ->
     Thread.workerPath env = distWorker env) /\
  (OPENCODE_WORKER_PATH env = None -> file_exists env (distWorker env) = false ->
     Thread.workerPath env = localWorker env) /\
  ((forall injected, OPENCODE_WORKER_PATH env = Some injected ->
      file_exists env injected = true) ->
   file_exists env (localWorker env) = true ->
   Claimed.workerPath env = Some (Thread.workerPath env)) /\
  (chdir_throws env (Thread.cwdOf env args) = false ->
   filter (fun e => Loop.is_spawn e = true)
          (Loop.trace (Loop.step env Loop.boot (Loop.Invoke args)))
   = [Loop.Did (NewWorker (Thread.workerPath env)
                          (Thread.definedEntries (process_env env)))]).
Proof.
  unfold Thread.workerPath, Claimed.workerPath, Claimed.candidates.
  split_and!.
  - destruct (OPENCODE_WORKER_PATH env) as [p|]; cbn; [by left|].
    destruct (file_exists env (distWorker env)); tauto.
  - by intros p ->.
  - by intros -> ->.
  - by intros -> ->.
  - intros Hinj Hloc. destruct (OPENCODE_WORKER_PATH env) as [p|] eqn:Hp; cbn.
    + by rewrite (Hinj p eq_refl).
    + destruct (file_exists env (distWorker env)); [done|]. by rewrite Hloc.
  - intros Hok. unfold Loop.step, Loop.react, Thread.handler. rewrite Hok.
    destruct (Thread.shouldStartServer (process_argv env) (resolveNetworkOptions env args));
      reflexivity.
Qed.

(** ** A project directory that cannot be entered *)

(** C9. When [process.chdir] throws, the handler reports
    "Failed to change directory to <cwd>" and returns: no worker is created,
    no listener, [onerror] or timer is installed, the TUI is not launched,
    and nothing that happens to the process afterwards (short of another
    run of the handler) changes that. *)
Theorem chdir_failure_returns_early (env : Env) (args : Args) (inputs : list Loop.Input) :
  chdir_throws env (Thread.cwdOf env args) = true ->
  forallb (fun i => negb (Loop.is_invoke i)) inputs = true ->
  let w := Loop.step env Loop.boot (Loop.Invoke args) in
  Loop.trace w
    = [Loop.Did (UIError ("Failed to change directory to " +:+ Thread.cwdOf env args))] /\
  Loop.spawns (Loop.trace w) = 0%nat /\
  Loop.listeners w = [] /\ Loop.onerror w = None /\ Loop.timers w = [] /\
  Loop.ui w = None /\
  Loop.steps env w inputs = w.
Proof.
  intros Hthrows Hinputs w.
  assert (w = Loop.emit
                (Loop.Did (UIError ("Failed to change directory to " +:+ Thread.cwdOf env args)))
                Loop.boot) as Hw.
  { subst w. unfold Loop.step, Loop.react, Thread.handler. rewrite Hthrows. reflexivity. }
  rewrite Hw. split_and!; try reflexivity.
  clear Hw w. induction inputs as [|i inputs IH]; [reflexivity|].
  cbn in Hinputs. apply andb_true_iff in Hinputs as [Hi Hrest].
  unfold Loop.steps in *. cbn [foldl].
  replace (Loop.step env _ i) with
    (Loop.emit
       (Loop.Did (UIError ("Failed to change directory to " +:+ Thread.cwdOf env args)))
       Loop.boot); [by apply IH|].
  destruct i as [a|event e|e|r|  |  |  |  |request]; try reflexivity.
  discriminate.
Qed.

Lemma chdir_failure_returns_early_witness :
  Loop.steps Sample.env_no_dir
    (Loop.step Sample.env_no_dir Loop.boot (Loop.Invoke Sample.args))
    [Loop.Emit "SIGUSR2" None; Loop.TimerElapses; Loop.ExitRequested; Loop.TransportDies]
  = Loop.step Sample.env_no_dir Loop.boot (Loop.Invoke Sample.args).
Proof.
  apply (chdir_failure_returns_early Sample.env_no_dir Sample.args
           [Loop.Emit "SIGUSR2" None; Loop.TimerElapses; Loop.ExitRequested;
            Loop.TransportDies]);
    reflexivity.
Defined.

(** ** Copying the selection *)

(** C10. Without a selection, or with one whose text is empty,
    [Selection.copy] returns false with no effect at all: nothing goes to the
    clipboard, no toast is shown and the selection is as it was. With a
    non-empty text it starts the clipboard write with that text, clears the
    selection and returns true; the toast waits for the clipboard. *)
Theorem selection_copy (renderer : Selection.Renderer) :
  (Selection.selection renderer = None \/ Selection.selection renderer = Some "" ->
   Selection.copy renderer = (false, renderer, [])) /\
  (forall text, Selection.selection renderer = Some text -> text <> "" ->
   Selection.copy renderer
   = (true, {| Selection.selection := None |},
      [Selection.ClipboardCopy text; Selection.ClearSelection])).
Proof.
  unfold Selection.copy, Selection.getSelection, Selection.clearSelection. split.
  - by intros [-> | ->].
  - intros text -> Hne. cbn.
    destruct (String.eqb_spec text ""); [done|reflexivity].
Qed.

Example selection_copy_none :
  Selection.copy {| Selection.selection := None |}
  = (false, {| Selection.selection := None |}, []).
Proof. reflexivity. Qed.

Example selection_copy_empty :
  Selection.copy {| Selection.selection := Some "" |}
  = (false, {| Selection.selection := Some "" |}, []).
Proof. reflexivity. Qed.

Example selection_copy_text :
  Selection.copy {| Selection.selection := Some "ls -la" |}
  = (true, {| Selection.selection := None |},
     [Selection.ClipboardCopy "ls -la"; Selection.ClearSelection]).
Proof. reflexivity. Qed.

(** ** Invariants of the event loop *)

Section Preservation.
Variables (okA : Action -> Prop) (okM : string -> Prop) (hot : nat -> Prop).
Variable Inv : Loop.World -> Prop.

Hypothesis Inv_perform : forall a w, okA a -> Inv w -> Inv (Loop.perform a w).
Hypothesis Inv_emit : forall e w, Loop.passive e -> Inv w -> Inv (Loop.emit e w).
Hypothesis Inv_call : forall method payload k w,
  okM method -> (forall o, Only okA okM (k o)) -> Inv w ->
  Inv (Loop.emit (Loop.Called (Rpc.mkCall (Rpc.next (Loop.rpc w)) method payload))
         (Loop.set_rpc {| Rpc.next := S (Rpc.next (Loop.rpc w));
                          Rpc.pending := <[Rpc.next (Loop.rpc w) := k]>
                                           (Rpc.pending (Loop.rpc w)) |} w)).
Hypothesis Inv_wait : forall w,
  Inv w -> Loop.tuiResolved w = false ->
  Inv (Loop.set_tuiWaiters (Loop.tuiWaiters w ++ [Done tt]) w).
Hypothesis Inv_pending : forall w, Inv w -> Loop.pending_only okA okM hot w.
Hypothesis Inv_waiters : forall w, Inv w -> Loop.waiters_done w.
Hypothesis Inv_delete : forall w id,
  Inv w -> ~ hot id ->
  Inv (Loop.set_rpc {| Rpc.next := Rpc.next (Loop.rpc w);
                       Rpc.pending := delete id (Rpc.pending (Loop.rpc w)) |} w).
Hypothesis Inv_close : forall w,
  (forall id, ~ hot id) -> Inv w ->
  Inv (Loop.set_rpc {| Rpc.next := Rpc.next (Loop.rpc w); Rpc.pending := ∅ |} w).
Hypothesis Inv_timers : forall w ts, Inv w -> Inv (Loop.set_timers ts w).
Hypothesis Inv_woken : forall w, Inv w -> Inv (Loop.set_tuiWaiters [] w).

Lemma run_preserves (t : Task unit) :
  Only okA okM t -> forall w, Inv w -> Inv (Loop.run t w).
Proof.
  induction 1 as [a|e|a k Ha Hk IH|method payload k Hm Hk _|a]; intros w Hw; cbn.
  - exact Hw.
  - by apply Inv_emit.
  - by apply IH, Inv_perform.
  - by apply Inv_call.
  - destruct (Loop.tuiResolved w) eqn:Hres; [exact Hw|].
    destruct a. by apply Inv_wait.
Qed.

Lemma wake_preserves w : Inv w -> Inv (Loop.wake w).
Proof.
  intros Hw. unfold Loop.wake. destruct (Loop.tuiResolved w); [|exact Hw].
  pose proof (Inv_waiters w Hw) as Hdone. unfold Loop.waiters_done in Hdone.
  pose proof (Inv_woken w Hw) as Hclear.
  revert Hclear. generalize (Loop.set_tuiWaiters [] w).
  induction Hdone as [|k ks -> _ IH]; intros w' Hw'; cbn; [exact Hw'|].
  by apply IH.
Qed.

Lemma listeners_preserve (ls : list (string * Listener)) event e :
  Forall (fun r => fst r = event -> Only okA okM (Thread.listener (snd r) e)) ls ->
  forall w, Inv w ->
  Inv (foldl (fun w r => if String.eqb (fst r) event
                         then Loop.run (Thread.listener (snd r) e) w else w) w ls).
Proof.
  induction 1 as [|[ev l] ls Hl _ IH]; intros w Hw; cbn; [exact Hw|].
  apply IH. destruct (String.eqb_spec ev event) as [Heq|_]; [|exact Hw].
  apply run_preserves; [by apply Hl|exact Hw].
Qed.

Lemma react_preserves env w i :
  Inv w -> Loop.Startable okA okM hot w i -> Inv (Loop.react env w i).
Proof.
  intros Hw Hi. destruct i as [a|event e|e|r|  |  |  |  |request];
    cbn in Hi; unfold Loop.react.
  - done.
  - by apply listeners_preserve.
  - destruct (Loop.onerror w) as [l|]; [|exact Hw].
    apply run_preserves; [exact (Hi l eq_refl)|exact Hw].
  - unfold Rpc.receive.
    destruct (Rpc.pending (Loop.rpc w) !! Rpc.response_id r) as [k|] eqn:Hk; [|exact Hw].
    apply run_preserves.
    + by apply (Inv_pending w Hw (Rpc.response_id r) k).
    + apply Inv_emit; [done|]. by apply Inv_delete.
  - assert (Forall (fun e : nat * (Outcome Result -> Task unit) =>
                      forall o, Only okA okM (snd e o))
                   (map_to_list (Rpc.pending (Loop.rpc w)))) as Hks.
    { apply Forall_forall. intros [id k] Hin. cbn.
      apply elem_of_map_to_list in Hin. by apply (Inv_pending w Hw id k). }
    pose proof (Inv_close w Hi Hw) as Hclosed. revert Hclosed.
    unfold Rpc.close.
    generalize (Loop.set_rpc {| Rpc.next := Rpc.next (Loop.rpc w); Rpc.pending := ∅ |} w).
    induction Hks as [|[id k] ks Hk _ IH]; intros w' Hw'; cbn; [exact Hw'|].
    apply IH, run_preserves; [apply Hk|]. by apply Inv_emit.
  - destruct (Loop.timers w) as [|[cb ms] rest] eqn:Hts; [exact Hw|].
    apply run_preserves; [exact (Hi cb ms rest eq_refl)|]. by apply Inv_timers.
  - destruct (Loop.ui w) as [input|]; [|exact Hw].
    apply run_preserves; [exact (Hi input eq_refl)|exact Hw].
  - destruct (Loop.ui w) as [input|]; [|exact Hw].
    apply run_preserves; [exact (Hi input eq_refl)|exact Hw].
  - destruct (Loop.ui w) as [input|]; [|exact Hw].
    destruct (tui_fetch input) as [[]|]; [|exact Hw].
    apply run_preserves; [exact (Hi env)|exact Hw].
Qed.

Lemma step_preserves env w i :
  Inv w -> Loop.Startable okA okM hot w i -> Inv (Loop.step env w i).
Proof. intros Hw Hi. by apply wake_preserves, react_preserves. Qed.

End Preservation.

(** ** Reading traces *)

Lemma calls_snoc (method : string) (tr : list Loop.Event) (e : Loop.Event) :
  Loop.calls method (tr ++ [e])
  = (Loop.calls method tr + (if Loop.is_call method e then 1 else 0))%nat.
Proof.
  unfold Loop.calls. rewrite filter_app, length_app, filter_cons.
  destruct (Loop.is_call method e); cbn; done.
Qed.

Lemma spawns_snoc (tr : list Loop.Event) (e : Loop.Event) :
  Loop.spawns (tr ++ [e])
  = (Loop.spawns tr + (if Loop.is_spawn e then 1 else 0))%nat.
Proof.
  unfold Loop.spawns. rewrite filter_app, length_app, filter_cons.
  destruct (Loop.is_spawn e); cbn; done.
Qed.

(** Proves [Only okA okM t] for a task given by the source, by walking it. *)
Ltac walk_task :=
  repeat first
    [ apply Only_Done
    | apply Only_Throw
    | apply Only_AwaitTui
    | apply Only_Act; [cbn; try done|]
    | apply Only_Await; [cbn; try done|intros [[| |]|]; cbn]
    | match goal with
      | |- context [new_Response ?env ?body ?status ?headers] =>
          destruct (new_Response env body status headers); cbn
      end ].

(** ** Reloads *)

Section ReloadFacts.
Import Reloads.

Lemma reloads_perform n a w : okA a -> Inv n w -> Inv n (Loop.perform a w).
Proof.
  intros Ha (Hl & He & Hc & Hs & Hp & Hw).
  destruct a; try done; unfold Inv; split_and!; cbn;
    rewrite ?calls_snoc, ?spawns_snoc; cbn; rewrite ?Nat.add_0_r; done.
Qed.

Lemma reloads_emit n e w : Loop.passive e -> Inv n w -> Inv n (Loop.emit e w).
Proof.
  intros He (Hl & Ho & Hc & Hs & Hp & Hw).
  destruct e; try done; unfold Inv; split_and!; cbn;
    rewrite ?calls_snoc, ?spawns_snoc; cbn; rewrite ?Nat.add_0_r; done.
Qed.

Lemma reloads_call n method payload k w :
  okM method -> (forall o, Only okA okM (k o)) -> Inv n w ->
  Inv n (Loop.emit (Loop.Called (Rpc.mkCall (Rpc.next (Loop.rpc w)) method payload))
           (Loop.set_rpc {| Rpc.next := S (Rpc.next (Loop.rpc w));
                            Rpc.pending := <[Rpc.next (Loop.rpc w) := k]>
                                             (Rpc.pending (Loop.rpc w)) |} w)).
Proof.
  intros Hm Hk (Hl & Ho & Hc & Hs & Hp & Hw). unfold Inv; split_and!; cbn; try done.
  - rewrite calls_snoc. cbn.
    destruct (String.eqb_spec method "reload") as [Heq|_]; [by destruct Hm|].
    by rewrite Nat.add_0_r.
  - rewrite spawns_snoc. cbn. by rewrite Nat.add_0_r.
  - intros id k' Hk' _. cbn in Hk'.
    apply lookup_insert_Some in Hk' as [[_ <-]|[_ Hk']]; [exact Hk|].
    apply (Hp id k'); [done|unfold cold; tauto].
Qed.

Lemma reloads_step n env w i :
  Inv n w -> Loop.is_invoke i = false -> Loop.is_signal "SIGUSR2" i = false ->
  Inv n (Loop.step env w i).
Proof.
  intros Hw Hinv Hsig.
  apply (step_preserves okA okM cold (Inv n)); [..|exact Hw|].
  - apply reloads_perform.
  - apply reloads_emit.
  - apply reloads_call.
  - intros w' (Hl & Ho & Hc & Hs & Hp & Hd) _. unfold Inv; split_and!; try done.
    apply Forall_app. split; [exact Hd|]. by constructor.
  - by intros w' (Hl & Ho & Hc & Hs & Hp & Hd).
  - by intros w' (Hl & Ho & Hc & Hs & Hp & Hd).
  - intros w' id (Hl & Ho & Hc & Hs & Hp & Hd) _. unfold Inv; split_and!; try done.
    intros id' k Hk _. cbn in Hk. apply lookup_delete_Some in Hk as [_ Hk].
    apply (Hp id' k); [done|unfold cold; tauto].
  - intros w' _ (Hl & Ho & Hc & Hs & Hp & Hd). unfold Inv; split_and!; done.
  - by intros w' ts (Hl & Ho & Hc & Hs & Hp & Hd).
  - intros w' (Hl & Ho & Hc & Hs & Hp & Hd). unfold Inv; split_and!; try done. constructor.
  - destruct Hw as (Hl & Ho & Hc & Hs & Hp & Hd).
    destruct i as [a|event e|e|r|  |  |  |  |request]; cbn in *.
    + done.
    + rewrite Hl. unfold registered.
      repeat (apply Forall_cons; split); [| | |by apply Forall_nil]; cbn.
      * intros _. walk_task.
      * intros _. walk_task.
      * intros <-. discriminate.
    + intros l Hl'. rewrite Ho in Hl'. injection Hl' as <-. walk_task.
    + unfold cold. tauto.
    + unfold cold. tauto.
    + intros [dir] ms rest _. walk_task.
    + intros input _. destruct (tui_onExit input) as [[]|]; walk_task.
    + intros input _. destruct (tui_onExit input) as [[]|]; walk_task.
    + intros env'. cbn. walk_task.
Qed.

Lemma reloads_signal n env w e :
  Inv n w -> Inv (S n) (Loop.step env w (Loop.Emit "SIGUSR2" e)).
Proof.
  intros (Hl & Ho & Hc & Hs & Hp & Hd).
  apply (wake_preserves (Inv (S n))).
  - by intros w' (Hl' & Ho' & Hc' & Hs' & Hp' & Hd').
  - intros w' (Hl' & Ho' & Hc' & Hs' & Hp' & Hd'). unfold Inv; split_and!; try done. constructor.
  - unfold Loop.react. rewrite Hl. cbn. unfold Inv; split_and!; cbn; try done.
    + rewrite calls_snoc, Hc. cbn. lia.
    + rewrite spawns_snoc, Hs. cbn. lia.
    + intros id k Hk _. cbn in Hk.
      apply lookup_insert_Some in Hk as [[_ <-]|[_ Hk]]; [|apply (Hp id k); [done|unfold cold; tauto]].
      intros [r|err]; cbn; constructor.
Qed.

Lemma reloads_start env args :
  chdir_throws env (Thread.cwdOf env args) = false ->
  Inv 0 (Loop.step env Loop.boot (Loop.Invoke args)).
Proof.
  intros Hok. unfold Loop.step, Loop.react, Thread.handler. rewrite Hok.
  destruct (Thread.shouldStartServer (process_argv env) (resolveNetworkOptions env args));
    cbn; unfold Inv; split_and!; try done.
  - intros id k Hk _. cbn in Hk.
    apply lookup_insert_Some in Hk as [[_ <-]|[_ Hk]]; [|by rewrite lookup_empty in Hk].
    intros [[| |]|]; cbn; walk_task.
  - constructor.
  - by repeat constructor.
Qed.

Lemma reloads_steps env inputs : forall n w,
  Inv n w ->
  forallb (fun i => negb (Loop.is_invoke i)) inputs = true ->
  Inv (n + length (filter (fun i => Loop.is_signal "SIGUSR2" i = true) inputs))
      (Loop.steps env w inputs).
Proof.
  induction inputs as [|i inputs IH]; intros n w Hw Hinputs.
  - cbn. by rewrite Nat.add_0_r.
  - cbn in Hinputs. apply andb_true_iff in Hinputs as [Hi Hrest].
    apply negb_true_iff in Hi.
    unfold Loop.steps. cbn [foldl]. fold (Loop.steps env (Loop.step env w i) inputs).
    rewrite filter_cons.
    destruct (Loop.is_signal "SIGUSR2" i) eqn:Hsig.
    + destruct i as [a|event e|e|r|  |  |  |  |request]; try discriminate.
      cbn in Hsig. apply String.eqb_eq in Hsig as ->.
      rewrite decide_True by done. cbn [length].
      replace (n + S (length (filter (fun i => Loop.is_signal "SIGUSR2" i = true) inputs)))%nat
        with (S n + length (filter (fun i => Loop.is_signal "SIGUSR2" i = true) inputs))%nat
        by lia.
      apply IH; [|exact Hrest]. by apply reloads_signal.
    + rewrite decide_False by done.
      apply IH; [|exact Hrest]. by apply reloads_step.
Qed.

End ReloadFacts.

(** C7. Once the handler has started the worker, whatever happens to the
    process in whatever order (signals, responses, the death of the
    transport, timers, fetches, exits), the number of ["reload"] calls made
    is the number of SIGUSR2 signals received, and the process has created
    exactly one worker: a signal is answered by one call and by no restart. *)
Theorem one_reload_per_signal (env : Env) (args : Args) (inputs : list Loop.Input) :
  chdir_throws env (Thread.cwdOf env args) = false ->
  forallb (fun i => negb (Loop.is_invoke i)) inputs = true ->
  let w := Loop.steps env (Loop.step env Loop.boot (Loop.Invoke args)) inputs in
  Loop.calls "reload" (Loop.trace w)
    = length (filter (fun i => Loop.is_signal "SIGUSR2" i = true) inputs) /\
  Loop.spawns (Loop.trace w) = 1%nat.
Proof.
  intros Hok Hinputs w.
  destruct (reloads_steps env inputs 0 _ (reloads_start env args Hok) Hinputs)
    as (_ & _ & Hc & Hs & _).
  split; [exact Hc|exact Hs].
Qed.

Lemma one_reload_per_signal_witness :
  let inputs := [Loop.Emit "SIGUSR2" None; Loop.Emit "SIGUSR2" None; Loop.TimerElapses;
                 Loop.Receive (Rpc.Result 0%nat RUndefined); Loop.Emit "SIGUSR2" None;
                 Loop.Emit "SIGTERM" None] in
  let w := Loop.steps Sample.env
             (Loop.step Sample.env Loop.boot (Loop.Invoke Sample.args)) inputs in
  Loop.calls "reload" (Loop.trace w) = 3%nat /\ Loop.spawns (Loop.trace w) = 1%nat.
Proof.
  exact (one_reload_per_signal Sample.env Sample.args
           [Loop.Emit "SIGUSR2" None; Loop.Emit "SIGUSR2" None; Loop.TimerElapses;
            Loop.Receive (Rpc.Result 0%nat RUndefined); Loop.Emit "SIGUSR2" None;
            Loop.Emit "SIGTERM" None]
           eq_refl eq_refl).
Defined.

Example three_signals_trace :
  Loop.trace
    (Loop.steps Sample.env (Loop.step Sample.env Loop.boot (Loop.Invoke Sample.args))
       [Loop.Emit "SIGUSR2" None; Loop.Emit "SIGUSR2" None])
  = [Loop.Did (Chdir "/work");
     Loop.Did (NewWorker "file:///src/cli/cmd/tui/worker.ts"
                 [("HOME", "/home/dev"); ("PWD", "/work")]);
     Loop.Did (WorkerOnError LogTheError);
     Loop.Did RpcClient;
     Loop.Did (ProcessOn "uncaughtException" LogTheError);
     Loop.Did (ProcessOn "unhandledRejection" LogTheError);
     Loop.Did (ProcessOn "SIGUSR2" Reload);
     Loop.Did (Tui {| tui_url := "http://opencode.internal";
                      tui_fetch := Some WorkerFetch;
                      tui_events := Some WorkerEvents;
                      tui_args := {| tui_continue := None; tui_sessionID := None;
                                     tui_agent := None; tui_model := None;
                                     tui_prompt := None |};
                      tui_onExit := Some Shutdown |});
     Loop.Did (SetTimeout (CheckUpgrade "/work") 1000);
     Loop.Called (Rpc.mkCall 0%nat "reload" PUndefined);
     Loop.Called (Rpc.mkCall 1%nat "reload" PUndefined)].
Proof. vm_compute. reflexivity. Qed.

(** ** The exit path *)

Section ExitFacts.
Import Exits.

(** Woken waiters that have nothing left to do leave no trace. *)
Lemma wake_done w :
  Loop.waiters_done w ->
  Loop.wake w = if Loop.tuiResolved w then Loop.set_tuiWaiters [] w else w.
Proof.
  intros Hd. unfold Loop.wake. destruct (Loop.tuiResolved w); [|done].
  unfold Loop.waiters_done in Hd. generalize (Loop.set_tuiWaiters [] w).
  induction Hd as [|k ks -> _ IH]; intros w'; cbn; [done|apply IH].
Qed.

Lemma exits_listener l e : Only okA okM (Thread.listener l e).
Proof. destruct l; walk_task. Qed.

Lemma exits_timer cb : Only okA okM (Thread.timer cb).
Proof. destruct cb; walk_task. Qed.

Lemma exits_fetching env request : Only okA okM (Loop.fetching env request).
Proof. unfold Loop.fetching, Thread.createWorkerFetch. cbn. walk_task. Qed.

Lemma running_start env args : Running (Loop.step env Loop.boot (Loop.Invoke args)).
Proof.
  unfold Loop.step, Loop.react, Thread.handler.
  destruct (chdir_throws env (Thread.cwdOf env args)).
  { cbn. unfold Running; split_and!; cbn; try done. constructor. }
  destruct (Thread.shouldStartServer (process_argv env) (resolveNetworkOptions env args));
    cbn; unfold Running; split_and!; cbn; try done.
  - intros id k Hk _. cbn in Hk.
    apply lookup_insert_Some in Hk as [[_ <-]|[_ Hk]]; [|by rewrite lookup_empty in Hk].
    intros [[| |]|]; cbn; walk_task.
  - constructor.
  - by intros input [= <-].
  - by repeat constructor.
Qed.

Lemma running_step env w i :
  Running w -> before_exit i = true -> Running (Loop.step env w i).
Proof.
  intros Hw Hi.
  apply (step_preserves okA okM cold Running); [..|exact Hw|].
  - intros a w' Ha (Hr & Hc & Hu & Hp & Hd).
    destruct a; try done; unfold Running; split_and!; cbn;
      rewrite ?calls_snoc; cbn; rewrite ?Nat.add_0_r; try done.
    by intros input' [= <-].
  - intros e w' He (Hr & Hc & Hu & Hp & Hd).
    destruct e; try done; unfold Running; split_and!; cbn;
      rewrite ?calls_snoc; cbn; rewrite ?Nat.add_0_r; done.
  - intros method payload k w' Hm Hk (Hr & Hc & Hu & Hp & Hd).
    unfold Running; split_and!; cbn; try done.
    + rewrite calls_snoc. cbn.
      destruct (String.eqb_spec method "shutdown") as [Heq|_]; [by destruct Hm|].
      by rewrite Nat.add_0_r.
    + intros id k' Hk' _. cbn in Hk'.
      apply lookup_insert_Some in Hk' as [[_ <-]|[_ Hk']]; [exact Hk|].
      apply (Hp id k'); [done|unfold cold; tauto].
  - intros w' (Hr & Hc & Hu & Hp & Hd) _. unfold Running; split_and!; try done.
    apply Forall_app. split; [exact Hd|]. by constructor.
  - by intros w' (Hr & Hc & Hu & Hp & Hd).
  - by intros w' (Hr & Hc & Hu & Hp & Hd).
  - intros w' id (Hr & Hc & Hu & Hp & Hd) _. unfold Running; split_and!; try done.
    intros id' k Hk _. cbn in Hk. apply lookup_delete_Some in Hk as [_ Hk].
    apply (Hp id' k); [done|unfold cold; tauto].
  - intros w' _ (Hr & Hc & Hu & Hp & Hd). unfold Running; split_and!; done.
  - by intros w' ts (Hr & Hc & Hu & Hp & Hd).
  - intros w' (Hr & Hc & Hu & Hp & Hd). unfold Running; split_and!; try done. constructor.
  - destruct i as [a|event e|e|r|  |  |  |  |request]; try discriminate; cbn.
    + apply Forall_forall. intros [ev l] _ _. apply exits_listener.
    + intros l _. apply exits_listener.
    + unfold cold. tauto.
    + unfold cold. tauto.
    + intros cb ms rest _. apply exits_timer.
    + intros env'. apply exits_fetching.
Qed.

Lemma running_steps env inputs : forall w,
  Running w -> forallb before_exit inputs = true -> Running (Loop.steps env w inputs).
Proof.
  induction inputs as [|i inputs IH]; intros w Hw Hinputs; [exact Hw|].
  cbn in Hinputs. apply andb_true_iff in Hinputs as [Hi Hrest].
  apply (IH (Loop.step env w i)); [by apply running_step|exact Hrest].
Qed.

Lemma exiting_step env id w i :
  Exiting id w -> awaiting id i = true -> Exiting id (Loop.step env w i).
Proof.
  intros Hw Hi.
  apply (step_preserves okA okM (fun i => i = id) (Exiting id)); [..|exact Hw|].
  - intros a w' Ha (Hr & Hc & Hk & Hn & Hp & Hd).
    destruct a; try done; unfold Exiting; split_and!; cbn;
      rewrite ?calls_snoc; cbn; rewrite ?Nat.add_0_r; done.
  - intros e w' He (Hr & Hc & Hk & Hn & Hp & Hd).
    destruct e; try done; unfold Exiting; split_and!; cbn;
      rewrite ?calls_snoc; cbn; rewrite ?Nat.add_0_r; done.
  - intros method payload k w' Hm Hk (Hr & Hc & (k0 & Hk0 & Hful & Hrej) & Hn & Hp & Hd).
    unfold Exiting; split_and!; cbn; try done.
    + rewrite calls_snoc. cbn.
      destruct (String.eqb_spec method "shutdown") as [Heq|_]; [by destruct Hm|].
      by rewrite Nat.add_0_r.
    + exists k0. split_and!; try done. rewrite lookup_insert_ne by lia. exact Hk0.
    + lia.
    + intros id' k' Hk' Hne. cbn in Hk'.
      apply lookup_insert_Some in Hk' as [[_ <-]|[_ Hk']]; [exact Hk|].
      by apply (Hp id' k').
  - intros w' (Hr & Hc & Hk & Hn & Hp & Hd) _. unfold Exiting; split_and!; try done.
    apply Forall_app. split; [exact Hd|]. by constructor.
  - by intros w' (Hr & Hc & Hk & Hn & Hp & Hd).
  - by intros w' (Hr & Hc & Hk & Hn & Hp & Hd).
  - intros w' id' (Hr & Hc & (k0 & Hk0 & Hful & Hrej) & Hn & Hp & Hd) Hne.
    unfold Exiting; split_and!; try done.
    + exists k0. split_and!; try done. cbn. rewrite lookup_delete_ne by done. exact Hk0.
    + intros id'' k Hk Hne'. cbn in Hk. apply lookup_delete_Some in Hk as [_ Hk].
      by apply (Hp id'' k).
  - intros w' Hall. by destruct (Hall id).
  - by intros w' ts (Hr & Hc & Hk & Hn & Hp & Hd).
  - intros w' (Hr & Hc & Hk & Hn & Hp & Hd). unfold Exiting; split_and!; try done.
    constructor.
  - destruct i as [a|event e|e|r|  |  |  |  |request]; try discriminate; cbn.
    + apply Forall_forall. intros [ev l] _ _. apply exits_listener.
    + intros l _. apply exits_listener.
    + cbn in Hi. apply negb_true_iff, Nat.eqb_neq in Hi. exact Hi.
    + intros cb ms rest _. apply exits_timer.
    + intros env'. apply exits_fetching.
Qed.

Lemma exiting_steps env id inputs : forall w,
  Exiting id w -> forallb (awaiting id) inputs = true ->
  Exiting id (Loop.steps env w inputs).
Proof.
  induction inputs as [|i inputs IH]; intros w Hw Hinputs; [exact Hw|].
  cbn in Hinputs. apply andb_true_iff in Hinputs as [Hi Hrest].
  apply (IH (Loop.step env w i)); [by apply exiting_step|exact Hrest].
Qed.

(** A request to exit, while running: the guard is lifted, the shutdown call
    is made, and the exit path waits for it. *)
Lemma exit_requested env w exit :
  Running w -> is_Some (Loop.ui w) -> is_exit exit = true ->
  let id := Rpc.next (Loop.rpc w) in
  let w1 := Loop.step env w exit in
  Exiting id w1 /\
  exists prelude,
    Loop.trace w1 = Loop.trace w ++ prelude ++
                    [Loop.Did Unguard; Loop.Called (Rpc.mkCall id "shutdown" PUndefined)] /\
    prelude = match exit with
              | Loop.CrashScreenExit =>
                  [Loop.Did (SetTerminalTitle ""); Loop.Did RendererDestroy;
                   Loop.Did Win32FlushInputBuffer]
              | _ => []
              end.
Proof.
  intros (Hr & Hc & Hu & Hp & Hd) [input Hin] Hexit id w1.
  pose proof (Hu input Hin) as Hhook.
  assert (Loop.react env w exit
          = Loop.run (match exit with
                      | Loop.CrashScreenExit => App.handleExit (Some Thread.onExit)
                      | _ => App.onExit (Some Thread.onExit)
                      end) w) as Hreact.
  { destruct exit; try discriminate; unfold Loop.react; rewrite Hin, Hhook; reflexivity. }
  subst w1. unfold Loop.step. rewrite Hreact. clear Hreact.
  assert (forall w0 : Loop.World,
            Loop.tuiResolved w0 = false -> Loop.waiters_done w0 ->
            Loop.wake w0 = w0) as Hwake.
  { intros w0 Hr0 Hd0. by rewrite wake_done, Hr0. }
  destruct exit; try discriminate; (rewrite Hwake; [|by cbn|by cbn]); cbn.
  - split.
    + unfold Exiting; split_and!; cbn; try done.
      * rewrite !calls_snoc, Hc. reflexivity.
      * eexists. split_and!; [apply lookup_insert_eq|done|done].
      * subst id. lia.
      * intros id' k' Hk' Hne. cbn in Hk'.
        apply lookup_insert_Some in Hk' as [[Heq _]|[_ Hk']]; [by destruct Hne|].
        apply (Hp id' k'); [done|unfold cold; tauto].
    + exists []. split; [|done]. cbn. by rewrite <- app_assoc.
  - split.
    + unfold Exiting; split_and!; cbn; try done.
      * rewrite !calls_snoc, Hc. reflexivity.
      * eexists. split_and!; [apply lookup_insert_eq|done|done].
      * subst id. lia.
      * intros id' k' Hk' Hne. cbn in Hk'.
        apply lookup_insert_Some in Hk' as [[Heq _]|[_ Hk']]; [by destruct Hne|].
        apply (Hp id' k'); [done|unfold cold; tauto].
    + eexists. split; [|reflexivity]. cbn. by rewrite <- !app_assoc.
Qed.

(** The answer to the shutdown call resolves the tui promise, and a failure
    never does. *)
Lemma exit_completes env id w :
  Exiting id w ->
  (forall r,
     let w' := Loop.step env w (Loop.Receive (Rpc.Result id r)) in
     Loop.trace w' = Loop.trace w ++ [Loop.Settled id (Fulfilled r); Loop.Did ResolveTui] /\
     Loop.tuiResolved w' = true) /\
  (forall kind message,
     let w' := Loop.step env w (Loop.Receive (Rpc.Failure id kind message)) in
     Loop.trace w'
       = Loop.trace w ++ [Loop.Settled id (Rejected (CallFailure kind message));
                          Loop.Threw (CallFailure kind message)] /\
     Loop.tuiResolved w' = false).
Proof.
  intros (Hr & Hc & (k & Hk & Hful & Hrej) & Hn & Hp & Hd). split.
  - intros r w'. subst w'. unfold Loop.step.
    assert (Loop.react env w (Loop.Receive (Rpc.Result id r))
            = Loop.perform ResolveTui
                (Loop.emit (Loop.Settled id (Fulfilled r))
                   (Loop.set_rpc {| Rpc.next := Rpc.next (Loop.rpc w);
                                    Rpc.pending := delete id (Rpc.pending (Loop.rpc w)) |}
                                 w))) as ->.
    { unfold Loop.react, Rpc.receive. cbn [Rpc.response_id Rpc.response_outcome].
      rewrite Hk, Hful. reflexivity. }
    rewrite wake_done by exact Hd. cbn. by rewrite <- app_assoc.
  - intros kind message w'. subst w'. unfold Loop.step.
    assert (Loop.react env w (Loop.Receive (Rpc.Failure id kind message))
            = Loop.emit (Loop.Threw (CallFailure kind message))
                (Loop.emit (Loop.Settled id (Rejected (CallFailure kind message)))
                   (Loop.set_rpc {| Rpc.next := Rpc.next (Loop.rpc w);
                                    Rpc.pending := delete id (Rpc.pending (Loop.rpc w)) |}
                                 w))) as ->.
    { unfold Loop.react, Rpc.receive. cbn [Rpc.response_id Rpc.response_outcome].
      rewrite Hk, Hrej. reflexivity. }
    rewrite wake_done by exact Hd. cbn. rewrite Hr. cbn. by rewrite <- app_assoc.
Qed.

End ExitFacts.

(** C5. From a running TUI, on either exit path: no shutdown call was made
    before; the exit makes exactly one, as its last act; while that call is
    pending the promise returned by [tui] stays unresolved and no second
    shutdown call is made, whatever else happens meanwhile (signals, timers,
    fetches, responses to other calls); and the answer to the call is
    followed at once by the resolution of the promise. *)
Theorem shutdown_awaited_before_exit
    (env : Env) (args : Args) (pre inputs : list Loop.Input) (exit : Loop.Input)
    (r : Result) :
  forallb Exits.before_exit pre = true ->
  Exits.is_exit exit = true ->
  let w0 := Loop.steps env (Loop.step env Loop.boot (Loop.Invoke args)) pre in
  is_Some (Loop.ui w0) ->
  let id := Rpc.next (Loop.rpc w0) in
  forallb (Exits.awaiting id) inputs = true ->
  let w1 := Loop.step env w0 exit in
  let w2 := Loop.steps env w1 inputs in
  let w3 := Loop.step env w2 (Loop.Receive (Rpc.Result id r)) in
  Loop.calls "shutdown" (Loop.trace w0) = 0%nat /\
  last (Loop.trace w1) = Some (Loop.Called (Rpc.mkCall id "shutdown" PUndefined)) /\
  Loop.calls "shutdown" (Loop.trace w1) = 1%nat /\
  Loop.tuiResolved w1 = false /\
  Loop.calls "shutdown" (Loop.trace w2) = 1%nat /\
  Loop.tuiResolved w2 = false /\
  Loop.trace w3 = Loop.trace w2 ++ [Loop.Settled id (Fulfilled r); Loop.Did ResolveTui] /\
  Loop.tuiResolved w3 = true /\
  Loop.calls "shutdown" (Loop.trace w3) = 1%nat.
Proof.
  intros Hpre Hexit w0 Hui id Hinputs w1 w2 w3.
  assert (Exits.Running w0) as Hw0
    by (apply running_steps; [apply running_start|exact Hpre]).
  destruct (exit_requested env w0 exit Hw0 Hui Hexit) as (Hw1 & prelude & Htr1 & _).
  fold id in Hw1, Htr1. fold w1 in Hw1, Htr1.
  assert (Exits.Exiting id w2) as Hw2 by (by apply exiting_steps).
  destruct (exit_completes env id w2 Hw2) as [Hdone _].
  destruct (Hdone r) as [Htr3 Hres3]. fold w3 in Htr3, Hres3.
  destruct Hw0 as (_ & Hc0 & _).
  destruct Hw1 as (Hr1 & Hc1 & _).
  destruct Hw2 as (Hr2 & Hc2 & _).
  split_and!; try done.
  - rewrite Htr1.
    change [Loop.Did Unguard; Loop.Called (Rpc.mkCall id "shutdown" PUndefined)]
      with ([Loop.Did Unguard] ++ [Loop.Called (Rpc.mkCall id "shutdown" PUndefined)]).
    rewrite !app_assoc. apply last_snoc.
  - rewrite Htr3.
    change [Loop.Settled id (Fulfilled r); Loop.Did ResolveTui]
      with ([Loop.Settled id (Fulfilled r)] ++ [Loop.Did ResolveTui]).
    rewrite app_assoc, !calls_snoc, Hc2. reflexivity.
Qed.

Lemma shutdown_awaited_before_exit_witness :
  let env := Sample.env in
  let w0 := Loop.steps env (Loop.step env Loop.boot (Loop.Invoke Sample.args))
              [Loop.FetchCalled Sample.request] in
  let w1 := Loop.step env w0 Loop.ExitRequested in
  let w2 := Loop.steps env w1
              [Loop.Emit "SIGUSR2" None; Loop.TimerElapses;
               Loop.Receive (Rpc.Result 0%nat
                               (RFetch (mkSerializedHttpResponse "[]" 200 ∅)))] in
  let w3 := Loop.step env w2 (Loop.Receive (Rpc.Result 1%nat RUndefined)) in
  Loop.calls "shutdown" (Loop.trace w0) = 0%nat /\
  last (Loop.trace w1) = Some (Loop.Called (Rpc.mkCall 1%nat "shutdown" PUndefined)) /\
  Loop.calls "shutdown" (Loop.trace w1) = 1%nat /\
  Loop.tuiResolved w1 = false /\
  Loop.calls "shutdown" (Loop.trace w2) = 1%nat /\
  Loop.tuiResolved w2 = false /\
  Loop.trace w3
    = Loop.trace w2 ++ [Loop.Settled 1%nat (Fulfilled RUndefined); Loop.Did ResolveTui] /\
  Loop.tuiResolved w3 = true /\
  Loop.calls "shutdown" (Loop.trace w3) = 1%nat.
Proof.
  exact (shutdown_awaited_before_exit Sample.env Sample.args
           [Loop.FetchCalled Sample.request]
           [Loop.Emit "SIGUSR2" None; Loop.TimerElapses;
            Loop.Receive (Rpc.Result 0%nat
                            (RFetch (mkSerializedHttpResponse "[]" 200 ∅)))]
           Loop.ExitRequested RUndefined
           eq_refl eq_refl (ex_intro _ _ eq_refl) eq_refl).
Defined.

Example exit_trace :
  let env := Sample.env in
  let w := Loop.steps env Loop.boot
             [Loop.Invoke Sample.args; Loop.FetchCalled Sample.request;
              Loop.ExitRequested;
              Loop.Receive (Rpc.Result 0%nat
                              (RFetch (mkSerializedHttpResponse "[]" 200 ∅)));
              Loop.Receive (Rpc.Result 1%nat RUndefined)] in
  drop 9 (Loop.trace w)
  = [Loop.Called (Rpc.mkCall 0%nat "fetch"
                    (PFetch {| sreq_url := "http://opencode.internal/session";
                               sreq_method := "POST";
                               sreq_headers := {["content-type" := "application/json"]};
                               sreq_body := Some "{}" |}));
     Loop.Did Unguard;
     Loop.Called (Rpc.mkCall 1%nat "shutdown" PUndefined);
     Loop.Settled 0%nat (Fulfilled (RFetch (mkSerializedHttpResponse "[]" 200 ∅)));
     Loop.Did (FetchReturned (mkResponse "[]" 200 ∅));
     Loop.Settled 1%nat (Fulfilled RUndefined);
     Loop.Did ResolveTui] /\
  Loop.tuiResolved w = true /\ Loop.tuiWaiters w = [].
Proof. vm_compute. done. Qed.

(** ** The version check *)

(** C8. A start that reaches the UI (at once in Direct mode, when the worker
    has answered the ["server"] call in Server mode) has launched the TUI
    and then set one timer of 1000 ms, the only timer and the last thing it
    did, having made no ["checkUpgrade"] call; the handler then awaits the
    TUI, not the check. When the timer fires, one ["checkUpgrade"] call with
    the working directory is made. A failure of that call, be it an error
    response or the death of the transport, only settles the call: nothing
    is thrown, logged or shown, and the TUI is as it was. *)
Theorem version_check_in_background
    (env : Env) (args : Args) (url kind message : string) :
  chdir_throws env (Thread.cwdOf env args) = false ->
  let cwd := Thread.cwdOf env args in
  let networkOpts := resolveNetworkOptions env args in
  let server := Thread.shouldStartServer (process_argv env) networkOpts in
  let w0 := Loop.step env Loop.boot (Loop.Invoke args) in
  let w1 := if server
            then Loop.step env w0 (Loop.Receive (Rpc.Result 0%nat (RServer url)))
            else w0 in
  let id := Rpc.next (Loop.rpc w1) in
  let w2 := Loop.step env w1 Loop.TimerElapses in
  let w3 := Loop.step env w2 (Loop.Receive (Rpc.Failure id kind message)) in
  let w3' := Loop.step env w2 Loop.TransportDies in
  let tuiArgs := {| tui_continue := continue args; tui_sessionID := session args;
                    tui_agent := agent args; tui_model := model args;
                    tui_prompt := Thread.promptOf env args |} in
  Loop.trace w1
    = [Loop.Did (Chdir cwd);
       Loop.Did (NewWorker (Thread.workerPath env) (Thread.definedEntries (process_env env)));
       Loop.Did (WorkerOnError LogTheError);
       Loop.Did RpcClient;
       Loop.Did (ProcessOn "uncaughtException" LogTheError);
       Loop.Did (ProcessOn "unhandledRejection" LogTheError);
       Loop.Did (ProcessOn "SIGUSR2" Reload)] ++
      (if server
       then [Loop.Called (Rpc.mkCall 0%nat "server" (PServer networkOpts));
             Loop.Settled 0%nat (Fulfilled (RServer url));
             Loop.Did (Tui (mkTuiInput url None None tuiArgs (Some Shutdown)))]
       else [Loop.Did (Tui (mkTuiInput "http://opencode.internal" (Some WorkerFetch)
                              (Some WorkerEvents) tuiArgs (Some Shutdown)))]) ++
      [Loop.Did (SetTimeout (CheckUpgrade cwd) 1000)] /\
  Loop.timers w1 = [(CheckUpgrade cwd, 1000)] /\
  Loop.tuiWaiters w1 = [Done tt] /\
  Loop.trace w2
    = Loop.trace w1 ++ [Loop.Called (Rpc.mkCall id "checkUpgrade" (PCheckUpgrade cwd))] /\
  Loop.timers w2 = [] /\
  Loop.trace w3
    = Loop.trace w2 ++ [Loop.Settled id (Rejected (CallFailure kind message))] /\
  Loop.trace w3' = Loop.trace w2 ++ [Loop.Settled id (Rejected ChannelClosed)] /\
  Loop.ui w3 = Loop.ui w1 /\ Loop.ui w3' = Loop.ui w1 /\
  Loop.tuiResolved w3 = false /\ Loop.tuiResolved w3' = false.
Proof.
  intros Hok. cbv zeta. unfold Loop.step, Loop.react, Thread.handler. rewrite Hok.
  destruct (Thread.shouldStartServer (process_argv env) (resolveNetworkOptions env args));
    vm_compute; split_and!; reflexivity.
Qed.

Lemma version_check_in_background_witness :
  let env := Sample.env_port in
  let cwd := Thread.cwdOf env Sample.args in
  let w0 := Loop.step env Loop.boot (Loop.Invoke Sample.args) in
  let w1 := if Thread.shouldStartServer (process_argv env)
                                        (resolveNetworkOptions env Sample.args)
            then Loop.step env w0
                   (Loop.Receive (Rpc.Result 0%nat (RServer "http://127.0.0.1:4096")))
            else w0 in
  let id := Rpc.next (Loop.rpc w1) in
  let w2 := Loop.step env w1 Loop.TimerElapses in
  let w3 := Loop.step env w2 (Loop.Receive (Rpc.Failure id "UnknownError" "offline")) in
  chdir_throws env cwd = false /\
  Loop.timers w1 = [(CheckUpgrade cwd, 1000)] /\
  Loop.trace w2
    = Loop.trace w1 ++ [Loop.Called (Rpc.mkCall id "checkUpgrade" (PCheckUpgrade cwd))] /\
  Loop.trace w3
    = Loop.trace w2 ++ [Loop.Settled id (Rejected (CallFailure "UnknownError" "offline"))].
Proof.
  cbv zeta. split; [reflexivity|].
  pose proof (version_check_in_background Sample.env_port Sample.args
                "http://127.0.0.1:4096" "UnknownError" "offline" eq_refl) as H.
  cbv zeta in H. destruct H as (_ & Htimers & _ & Hfire & _ & Hfail & _).
  split_and!; [exact Htimers|exact Hfire|exact Hfail].
Defined.

Example rpc_run_sample :
  Rpc.settled
    (Rpc.run [Rpc.Issue "fetch" 10%nat "k0"; Rpc.Issue "reload" 11%nat "k1";
              Rpc.Arrive (Rpc.Result 0%nat 200); Rpc.Arrive (Rpc.Result 0%nat 500);
              Rpc.Issue "server" 12%nat "k2"; Rpc.Arrive (Rpc.Failure 2%nat "NotFound" "no");
              Rpc.Die; Rpc.Arrive (Rpc.Result 1%nat 7)])
  = [(0%nat, Fulfilled 200); (2%nat, Rejected (CallFailure "NotFound" "no"));
     (1%nat, Rejected ChannelClosed)].
Proof. vm_compute. reflexivity. Qed.

(** * Further properties *)

(** ** The handler's two modes *)

(** X1. What the handler hands to [tui] depends on the mode alone: in Direct
    mode the placeholder URL with the fetch and event bridges, in Server mode
    the URL the worker answered with and neither bridge; the ["server"] call
    is made in Server mode only, and there a fetch by the SDK never goes
    through the channel. *)
Theorem bridges_only_in_direct_mode
    (env : Env) (args : Args) (url : string) (request : Request) :
  chdir_throws env (Thread.cwdOf env args) = false ->
  let networkOpts := resolveNetworkOptions env args in
  let server := Thread.shouldStartServer (process_argv env) networkOpts in
  let w0 := Loop.step env Loop.boot (Loop.Invoke args) in
  let w1 := if server
            then Loop.step env w0 (Loop.Receive (Rpc.Result 0%nat (RServer url)))
            else w0 in
  let tuiArgs := {| tui_continue := continue args; tui_sessionID := session args;
                    tui_agent := agent args; tui_model := model args;
                    tui_prompt := Thread.promptOf env args |} in
  Loop.ui w1
    = Some {| tui_url := if server then url else "http://opencode.internal";
              tui_fetch := if server then None else Some WorkerFetch;
              tui_events := if server then None else Some WorkerEvents;
              tui_args := tuiArgs;
              tui_onExit := Some Shutdown |} /\
  Loop.calls "server" (Loop.trace w1) = (if server then 1 else 0)%nat /\
  Loop.calls "fetch" (Loop.trace (Loop.step env w1 (Loop.FetchCalled request)))
    = (if server then 0 else 1)%nat.
Proof.
  intros Hok. cbv zeta. unfold Loop.step, Loop.react, Thread.handler. rewrite Hok.
  destruct (Thread.shouldStartServer (process_argv env) (resolveNetworkOptions env args));
    vm_compute; split_and!; reflexivity.
Qed.

Lemma bridges_only_in_direct_mode_witness :
  let env := Sample.env_port in
  let w0 := Loop.step env Loop.boot (Loop.Invoke Sample.args) in
  let w1 := if Thread.shouldStartServer (process_argv env)
                                        (resolveNetworkOptions env Sample.args)
            then Loop.step env w0
                   (Loop.Receive (Rpc.Result 0%nat (RServer "http://127.0.0.1:4096")))
            else w0 in
  chdir_throws env (Thread.cwdOf env Sample.args) = false /\
  Loop.calls "fetch" (Loop.trace (Loop.step env w1 (Loop.FetchCalled Sample.request)))
    = (if Thread.shouldStartServer (process_argv env)
                                   (resolveNetworkOptions env Sample.args)
       then 0 else 1)%nat.
Proof.
  cbv zeta. split; [reflexivity|].
  pose proof (bridges_only_in_direct_mode Sample.env_port Sample.args
                "http://127.0.0.1:4096" Sample.request eq_refl) as H.
  cbv zeta in H. destruct H as (_ & _ & H). exact H.
Defined.

(** X2. In Server mode a failed ["server"] call ends the handler in a throw
    of that failure: the TUI is not launched and no timer is set, whether the
    worker answered with an error or the transport died. *)
Theorem server_failure_aborts_start
    (env : Env) (args : Args) (kind message : string) :
  chdir_throws env (Thread.cwdOf env args) = false ->
  Thread.shouldStartServer (process_argv env) (resolveNetworkOptions env args) = true ->
  let w0 := Loop.step env Loop.boot (Loop.Invoke args) in
  let w1 := Loop.step env w0 (Loop.Receive (Rpc.Failure 0%nat kind message)) in
  let w1' := Loop.step env w0 Loop.TransportDies in
  Loop.trace w1
    = Loop.trace w0 ++ [Loop.Settled 0%nat (Rejected (CallFailure kind message));
                        Loop.Threw (CallFailure kind message)] /\
  Loop.trace w1'
    = Loop.trace w0 ++ [Loop.Settled 0%nat (Rejected ChannelClosed);
                        Loop.Threw ChannelClosed] /\
  Loop.ui w1 = None /\ Loop.ui w1' = None /\
  Loop.timers w1 = [] /\ Loop.timers w1' = [] /\
  Loop.tuiWaiters w1 = [] /\ Loop.tuiWaiters w1' = [].
Proof.
  intros Hok Hserver. cbv zeta. unfold Loop.step, Loop.react, Thread.handler.
  rewrite Hok, Hserver. vm_compute. split_and!; reflexivity.
Qed.

Lemma server_failure_aborts_start_witness :
  let env := Sample.env_port in
  let w0 := Loop.step env Loop.boot (Loop.Invoke Sample.args) in
  let w1 := Loop.step env w0 (Loop.Receive (Rpc.Failure 0%nat "EADDRINUSE" "port taken")) in
  Loop.ui w1 = None /\ Loop.timers w1 = [].
Proof.
  cbv zeta.
  pose proof (server_failure_aborts_start Sample.env_port Sample.args
                "EADDRINUSE" "port taken" eq_refl eq_refl) as H.
  cbv zeta in H. destruct H as (_ & _ & Hui & _ & Htimers & _).
  split; [exact Hui|exact Htimers].
Defined.

(** ** Faults and failures while the TUI runs *)

(** Waking leaves the trace, the channel and the TUI as they are when
    whoever waits has nothing left to do. *)
Lemma wake_frame w :
  Loop.waiters_done w ->
  Loop.trace (Loop.wake w) = Loop.trace w /\
  Loop.rpc (Loop.wake w) = Loop.rpc w /\
  Loop.ui (Loop.wake w) = Loop.ui w /\
  Loop.tuiResolved (Loop.wake w) = Loop.tuiResolved w /\
  Loop.listeners (Loop.wake w) = Loop.listeners w /\
  Loop.timers (Loop.wake w) = Loop.timers w.
Proof.
  intros Hd. rewrite (wake_done w Hd). destruct (Loop.tuiResolved w) eqn:Hr; cbn; by rewrite ?Hr.
Qed.



(** X4. A reload that fails is not swallowed: the signal's listener makes
    the call and, when the call is rejected, ends in a throw of the failure
    (unlike the version check, whose failure leaves no trace but the
    settlement). *)
Theorem failed_reload_throws
    (env : Env) (args : Args) (inputs : list Loop.Input) (kind message : string) :
  chdir_throws env (Thread.cwdOf env args) = false ->
  forallb (fun i => negb (Loop.is_invoke i)) inputs = true ->
  let w := Loop.steps env (Loop.step env Loop.boot (Loop.Invoke args)) inputs in
  let id := Rpc.next (Loop.rpc w) in
  let w1 := Loop.step env w (Loop.Emit "SIGUSR2" None) in
  let w2 := Loop.step env w1 (Loop.Receive (Rpc.Failure id kind message)) in
  Loop.trace w2
  = Loop.trace w ++ [Loop.Called (Rpc.mkCall id "reload" PUndefined);
                     Loop.Settled id (Rejected (CallFailure kind message));
                     Loop.Threw (CallFailure kind message)].
Proof.
  intros Hok Hinputs w id w1 w2.
  destruct (reloads_steps env inputs 0 _ (reloads_start env args Hok) Hinputs)
    as (Hl & Ho & _ & _ & _ & Hd).
  fold w in Hl, Ho, Hd.
  set (k := fun o : Outcome Result =>
              bind (match o with Fulfilled r => Done r | Rejected err => Throw err end)
                   (fun _ => Done tt)).
  set (w' := Loop.emit (Loop.Called (Rpc.mkCall id "reload" PUndefined))
               (Loop.set_rpc {| Rpc.next := S id;
                                Rpc.pending := <[id := k]> (Rpc.pending (Loop.rpc w)) |} w)).
  assert (Loop.react env w (Loop.Emit "SIGUSR2" None) = w') as Hemit.
  { unfold Loop.react. rewrite Hl. reflexivity. }
  assert (Loop.waiters_done w') as Hd' by exact Hd.
  destruct (wake_frame w' Hd') as (Ht1 & Hr1 & _).
  assert (Loop.waiters_done w1) as Hd1.
  { subst w1. unfold Loop.step. rewrite Hemit, (wake_done w' Hd').
    destruct (Loop.tuiResolved w'); [constructor|exact Hd']. }
  set (w'' := Loop.emit (Loop.Threw (CallFailure kind message))
                (Loop.emit (Loop.Settled id (Rejected (CallFailure kind message)))
                   (Loop.set_rpc {| Rpc.next := Rpc.next (Loop.rpc w1);
                                    Rpc.pending := delete id (Rpc.pending (Loop.rpc w1)) |}
                                 w1))).
  assert (Loop.react env w1 (Loop.Receive (Rpc.Failure id kind message)) = w'') as Hrecv.
  { unfold Loop.react, Rpc.receive. cbn [Rpc.response_id Rpc.response_outcome].
    assert (Rpc.pending (Loop.rpc w1) !! id = Some k) as ->; [|reflexivity].
    subst w1. unfold Loop.step. rewrite Hemit, Hr1. cbn. apply lookup_insert_eq. }
  assert (Loop.waiters_done w'') as Hd'' by exact Hd1.
  destruct (wake_frame w'' Hd'') as (Ht2 & _).
  subst w2. unfold Loop.step at 1. rewrite Hrecv, Ht2. cbn.
  subst w1. unfold Loop.step. rewrite Hemit, Ht1. cbn. by rewrite <- !app_assoc.
Qed.

Lemma failed_reload_throws_witness :
  let env := Sample.env in
  let w := Loop.steps env (Loop.step env Loop.boot (Loop.Invoke Sample.args))
             [Loop.FetchCalled Sample.request] in
  let id := Rpc.next (Loop.rpc w) in
  let w1 := Loop.step env w (Loop.Emit "SIGUSR2" None) in
  let w2 := Loop.step env w1 (Loop.Receive (Rpc.Failure id "Busy" "try later")) in
  Loop.trace w2
  = Loop.trace w ++ [Loop.Called (Rpc.mkCall id "reload" PUndefined);
                     Loop.Settled id (Rejected (CallFailure "Busy" "try later"));
                     Loop.Threw (CallFailure "Busy" "try later")].
Proof.
  exact (failed_reload_throws Sample.env Sample.args [Loop.FetchCalled Sample.request]
           "Busy" "try later" eq_refl eq_refl).
Defined.

(** ** The fetch bridge under failure and concurrency *)

(** X5. A failed ["fetch"] call makes the custom fetch throw that failure:
    the call is settled, taken out of the pending table, and no response is
    returned to the caller. *)
Theorem fetch_failure_propagates (env : Env) (w : Loop.World) (request : Request)
    (kind message : string) :
  let id := Rpc.next (Loop.rpc w) in
  let w1 := Loop.run (Loop.fetching env request) w in
  let w2 := Loop.react env w1 (Loop.Receive (Rpc.Failure id kind message)) in
  Loop.trace w2
    = Loop.trace w1 ++ [Loop.Settled id (Rejected (CallFailure kind message));
                        Loop.Threw (CallFailure kind message)] /\
  Rpc.pending (Loop.rpc w2) !! id = None.
Proof.
  intros id w1 w2. split.
  - subst w2 w1. cbn. unfold Rpc.receive. cbn. fold id.
    rewrite lookup_insert_eq. cbn. by rewrite <- app_assoc.
  - subst w2 w1. cbn. unfold Rpc.receive. cbn. fold id.
    rewrite lookup_insert_eq. cbn. apply lookup_delete_eq.
Qed.

(** X6. Two fetches in flight are told apart by their call ids, not by the
    order of the answers: when the second is answered first, what each
    caller gets is made from the result of its own call, the response the
    platform's constructor builds from that result or the throw of what the
    constructor throws at it. *)
Theorem fetches_are_correlated (env : Env) (w : Loop.World) (request1 request2 : Request)
    (result1 result2 : SerializedHttpResponse) :
  let id1 := Rpc.next (Loop.rpc w) in
  let id2 := S id1 in
  let w1 := Loop.run (Loop.fetching env request1) w in
  let w2 := Loop.run (Loop.fetching env request2) w1 in
  let w3 := Loop.react env w2 (Loop.Receive (Rpc.Result id2 (RFetch result2))) in
  let w4 := Loop.react env w3 (Loop.Receive (Rpc.Result id1 (RFetch result1))) in
  let given result :=
    match new_Response env (sres_body result) (sres_status result)
                       (sres_headers result) with
    | Fulfilled response => Loop.Did (FetchReturned response)
    | Rejected e => Loop.Threw e
    end in
  exists headers1 headers2,
    Loop.trace w4
    = Loop.trace w ++
      [Loop.Called
         (Rpc.mkCall id1 "fetch"
            (PFetch {| sreq_url := request_url request1;
                       sreq_method := request_method request1;
                       sreq_headers := headers1;
                       sreq_body := request_body request1 |}));
       Loop.Called
         (Rpc.mkCall id2 "fetch"
            (PFetch {| sreq_url := request_url request2;
                       sreq_method := request_method request2;
                       sreq_headers := headers2;
                       sreq_body := request_body request2 |}));
       Loop.Settled id2 (Fulfilled (RFetch result2));
       given result2;
       Loop.Settled id1 (Fulfilled (RFetch result1));
       given result1].
Proof.
  intros id1 id2 w1 w2 w3 w4 given.
  exists (fromEntries (request_headers request1)), (fromEntries (request_headers request2)).
  subst given w4 w3 w2 w1. cbn. unfold Rpc.receive. cbn. fold id1. fold id2.
  rewrite lookup_insert_eq. cbn.
  destruct (new_Response env (sres_body result2) (sres_status result2)
                         (sres_headers result2)) as [response2|e2]; cbn;
    rewrite lookup_delete_ne, lookup_insert_ne, lookup_insert_eq by (subst id2; lia);
    cbn;
    destruct (new_Response env (sres_body result1) (sres_status result1)
                           (sres_headers result1)) as [response1|e1]; cbn;
    rewrite <- !app_assoc; cbn;
    by destruct (request_body request1), (request_body request2).
Qed.

(** ** The dispatcher and the handler together *)

Lemma getenv_setenv_other (name other value : string) (entries : list (string * option string)) :
  name <> other ->
  Thread.getenv (Main.setenv other value entries) name = Thread.getenv entries name.
Proof.
  intros Hne. induction entries as [|[k v] rest IH]; cbn.
  - destruct (String.eqb_spec name other); [done|reflexivity].
  - destruct (String.eqb_spec other k) as [->|Hk]; cbn.
    + destruct (String.eqb_spec name k); [done|reflexivity].
    + destruct (String.eqb_spec name k); [reflexivity|exact IH].
Qed.

Lemma In_definedEntries (entries : list (string * option string)) (name value : string) :
  In (name, value) (Thread.definedEntries entries) <-> In (name, Some value) entries.
Proof.
  induction entries as [|[k [v|]] rest IH]; cbn; [done| |]; rewrite IH;
    intuition congruence.
Qed.

Lemma definedEntries_keys (entries : list (string * option string)) (name : string) :
  In name (map fst (Thread.definedEntries entries)) -> In name (map fst entries).
Proof.
  induction entries as [|[k [v|]] rest IH]; cbn; [done| |]; tauto.
Qed.

Lemma definedEntries_NoDup (entries : list (string * option string)) :
  List.NoDup (map fst entries) -> List.NoDup (map fst (Thread.definedEntries entries)).
Proof.
  induction entries as [|[k [v|]] rest IH]; cbn; [done| |];
    rewrite !List.NoDup_cons_iff; intros [Hk Hrest]; [|by apply IH].
  split; [|by apply IH]. intros Hin. by apply Hk, definedEntries_keys.
Qed.

Lemma In_setenv_other (name other value : string) (v : option string)
    (entries : list (string * option string)) :
  name <> other ->
  In (name, v) (Main.setenv other value entries) <-> In (name, v) entries.
Proof.
  intros Hne. induction entries as [|[k v0] rest IH]; cbn; [intuition congruence|].
  destruct (String.eqb_spec other k) as [->|Hk]; cbn; [intuition congruence|].
  by rewrite IH.
Qed.

Lemma setenv_keys (name value n : string) (entries : list (string * option string)) :
  In n (map fst (Main.setenv name value entries)) <-> n = name \/ In n (map fst entries).
Proof.
  induction entries as [|[k v0] rest IH]; cbn; [intuition congruence|].
  destruct (String.eqb_spec name k) as [->|Hk]; cbn; [intuition congruence|].
  rewrite IH. tauto.
Qed.

Lemma setenv_NoDup (name value : string) (entries : list (string * option string)) :
  List.NoDup (map fst entries) -> List.NoDup (map fst (Main.setenv name value entries)).
Proof.
  induction entries as [|[k v0] rest IH]; cbn.
  - intros _. apply List.NoDup_cons; [by intros []|constructor].
  - destruct (String.eqb_spec name k) as [->|Hk]; cbn; [done|].
    rewrite !List.NoDup_cons_iff, setenv_keys. intros [Hin Hrest].
    split; [|by apply IH]. intros [->|?]; done.
Qed.

Lemma In_setenv_same (name value : string) (v : option string)
    (entries : list (string * option string)) :
  List.NoDup (map fst entries) ->
  In (name, v) (Main.setenv name value entries) <-> v = Some value.
Proof.
  induction entries as [|[k v0] rest IH]; cbn; [intuition congruence|].
  rewrite List.NoDup_cons_iff. intros [Hk Hrest].
  destruct (String.eqb_spec name k) as [->|Hne]; cbn.
  - split; [|intros ->; by left]. intros [?|Hin]; [congruence|].
    exfalso. apply Hk. by apply (in_map fst) in Hin.
  - rewrite (IH Hrest). intuition congruence.
Qed.

(** X7. The worker the handler creates after the dispatcher's middleware
    always finds [AGENT=1] and [OPENCODE=1] in its environment, whatever the
    process started with, and apart from these two exactly the variables the
    process has with a defined value, each with that value and once; the
    working directory is resolved as without the middleware. *)
Theorem worker_env_marks_cli
    (env : Env) (args : Args) (logLevel : option string) (isLocal : bool)
    (version : string) :
  chdir_throws env (Thread.cwdOf env args) = false ->
  List.NoDup (map fst (process_env env)) ->
  let env' := fst (Main.middleware env logLevel isLocal version) in
  exists entries,
    filter (fun e => Loop.is_spawn e = true)
           (Loop.trace (Loop.step env' Loop.boot (Loop.Invoke args)))
      = [Loop.Did (NewWorker (Thread.workerPath env) entries)] /\
    (forall name value,
       In (name, value) entries <->
       if String.eqb name "AGENT" || String.eqb name "OPENCODE" then value = "1"
       else In (name, Some value) (process_env env)) /\
    List.NoDup (map fst entries) /\
    Thread.cwdOf env' args = Thread.cwdOf env args.
Proof.
  intros Hok Hnd env'.
  assert (Thread.cwdOf env' args = Thread.cwdOf env args) as Hcwd.
  { unfold Thread.cwdOf. subst env'. cbn.
    by rewrite !getenv_setenv_other by discriminate. }
  exists (Thread.definedEntries (process_env env')). split_and!.
  - unfold Loop.step, Loop.react, Thread.handler. rewrite Hcwd.
    change (chdir_throws env' (Thread.cwdOf env args))
      with (chdir_throws env (Thread.cwdOf env args)).
    rewrite Hok.
    destruct (Thread.shouldStartServer (process_argv env') (resolveNetworkOptions env' args));
      reflexivity.
  - intros name value. subst env'. cbn [fst Main.middleware process_env].
    rewrite In_definedEntries.
    destruct (String.eqb_spec name "OPENCODE") as [->|Ho].
    + rewrite orb_true_r, In_setenv_same by (by apply setenv_NoDup).
      intuition congruence.
    + rewrite orb_false_r, In_setenv_other by done.
      destruct (String.eqb_spec name "AGENT") as [->|Ha].
      * rewrite In_setenv_same by done. intuition congruence.
      * by rewrite In_setenv_other.
  - subst env'. cbn [fst Main.middleware process_env].
    by apply definedEntries_NoDup, setenv_NoDup, setenv_NoDup.
  - exact Hcwd.
Qed.

Lemma worker_env_marks_cli_witness :
  let env' := fst (Main.middleware Sample.env None true "1.0.0") in
  exists entries,
    filter (fun e => Loop.is_spawn e = true)
           (Loop.trace (Loop.step env' Loop.boot (Loop.Invoke Sample.args)))
      = [Loop.Did (NewWorker (Thread.workerPath Sample.env) entries)] /\
    (forall name value,
       In (name, value) entries <->
       if String.eqb name "AGENT" || String.eqb name "OPENCODE" then value = "1"
       else In (name, Some value) (process_env Sample.env)) /\
    List.NoDup (map fst entries) /\
    Thread.cwdOf env' Sample.args = Thread.cwdOf Sample.env Sample.args.
Proof.
  apply (worker_env_marks_cli Sample.env Sample.args None true "1.0.0" eq_refl).
  repeat (apply List.NoDup_cons; [cbn; intuition discriminate|]). constructor.
Defined.

(** X8. Whatever the command did, the dispatcher ends in exactly one
    [process.exit()], its last act, with status 1 if the command threw and 0
    if it returned. For a thrown value it logs once and shows the formatted
    error when there is one, the pointer to the log file (and the message on
    the console) when the formatter has none, and nothing at all when the
    formatter gave the empty string. *)
Theorem main_reports_and_exits
    (FormatError : Main.Thrown -> option string) (logFile EOL : string)
    (parsed : Main.Parsed) :
  let effects := Main.main FormatError logFile EOL parsed in
  last effects = Some (Main.ProcessExit None) /\
  Main.exits effects = [None] /\
  Main.exitStatus 0 effects
    = Some (match parsed with Main.Returned => 0 | Main.Threw _ => 1 end) /\
  match parsed with
  | Main.Returned => effects = [Main.ProcessExit None]
  | Main.Threw e =>
      hd_error effects = Some (Main.LogFatal (Main.fatalData e)) /\
      Main.uiErrors effects
        = match FormatError e with
          | None => ["Unexpected error, check log file at " +:+ logFile +:+
                     " for more details" +:+ EOL]
          | Some text => if String.eqb text "" then [] else [text]
          end /\
      Main.consoleErrors effects
        = match FormatError e with
          | None => [match Main.asError e with
                     | Some f => Main.e_message f
                     | None => Main.asString e
                     end]
          | Some _ => []
          end
  end.
Proof.
  intros effects. subst effects. destruct parsed as [|e]; cbn.
  - by split_and!.
  - destruct (FormatError e) as [text|]; cbn; [|by split_and!].
    destruct (String.eqb text ""); cbn; by split_and!.
Qed.

(** X9. The [.fail] handler never returns: with an error it rethrows it and
    shows nothing; without one it exits with status 1, after showing the
    help exactly when the message starts with "Unknown argument", "Not
    enough non-option arguments" or "Invalid values:". *)
Theorem fail_rethrows_or_exits (msg : option string) (err : option Main.Thrown) :
  let usage m := String.prefix "Unknown argument" m ||
                 String.prefix "Not enough non-option arguments" m ||
                 String.prefix "Invalid values:" m in
  match err with
  | Some e => Main.fail msg err = ([], Main.Rethrow e)
  | None =>
      snd (Main.fail msg err) = Main.Exit 1 /\
      (fst (Main.fail msg err) = [Main.ShowHelp] <-> exists m, msg = Some m /\ usage m = true) /\
      (fst (Main.fail msg err) = [] <-> ~ exists m, msg = Some m /\ usage m = true)
  end.
Proof.
  intros usage. unfold Main.fail. destruct err as [e|].
  - by destruct msg as [m|]; [destruct (_ || _ || _)|].
  - destruct msg as [m|]; cbn.
    + fold (usage m). destruct (usage m) eqn:Hu; cbn; split_and!; try done.
      * split; [intros _; by exists m|done].
      * split; [done|]. intros H. exfalso. apply H. by exists m.
      * split; [done|]. intros (m' & [= <-] & Hm). congruence.
      * split; [intros _ (m' & [= <-] & Hm); congruence|done].
    + split_and!; try done.
      * split; [done|]. by intros (m & ? & _).
      * split; [intros _ (m & ? & _); done|done].
Qed.

(** X10. When the directory cannot be entered the handler runs to its end
    without a throw, so the [catch] block is not entered: the error was
    shown, and the process exits with status 0, not 1. *)
Theorem chdir_failure_exits_with_zero
    (env : Env) (args : Args) (classify : Error -> Main.Thrown)
    (FormatError : Main.Thrown -> option string) (logFile EOL : string) :
  chdir_throws env (Thread.cwdOf env args) = true ->
  exists parsed,
    Main.ranToEnd classify (Thread.handler env args)
      = Some ([Data.UIError ("Failed to change directory to " +:+ Thread.cwdOf env args)],
              parsed) /\
    Main.main FormatError logFile EOL parsed = [Main.ProcessExit None] /\
    Main.exitStatus 0 (Main.main FormatError logFile EOL parsed) = Some 0.
Proof.
  intros Hthrows. exists Main.Returned. unfold Thread.handler. rewrite Hthrows.
  by split_and!.
Qed.

Lemma chdir_failure_exits_with_zero_witness :
  exists parsed,
    Main.ranToEnd (fun _ => Main.mkThrown None None None "error")
                  (Thread.handler Sample.env_no_dir Sample.args)
      = Some ([Data.UIError ("Failed to change directory to " +:+
                             Thread.cwdOf Sample.env_no_dir Sample.args)], parsed) /\
    Main.main (fun _ => None) "/tmp/log" "" parsed = [Main.ProcessExit None] /\
    Main.exitStatus 0 (Main.main (fun _ => None) "/tmp/log" "" parsed) = Some 0.
Proof.
  exact (chdir_failure_exits_with_zero Sample.env_no_dir Sample.args
           (fun _ => Main.mkThrown None None None "error") (fun _ => None)
           "/tmp/log" "" eq_refl).
Defined.

(** ** The prompt handed to the TUI *)

(** X11. The prompt given to the TUI: with a [--prompt], it always ends with
    that prompt, preceded by the piped input and a line feed exactly when
    stdin is not a terminal and the piped input is not empty; without one
    (or with an empty one) it is the piped input as it is, and nothing on a
    terminal. *)
Theorem prompt_joins_piped_input (env : Env) (args : Args) :
  let newline := String (Ascii.ascii_of_nat 10) "" in
  match prompt args with
  | Some p =>
      if String.eqb p "" then
        Thread.promptOf env args = if stdin_isTTY env then None else Some (stdin_text env)
      else
        Thread.promptOf env args
        = Some (if stdin_isTTY env || String.eqb (stdin_text env) "" then p
                else stdin_text env +:+ newline +:+ p)
  | None =>
      Thread.promptOf env args = if stdin_isTTY env then None else Some (stdin_text env)
  end.
Proof.
  intros newline. unfold Thread.promptOf.
  destruct (prompt args) as [p|]; cbn.
  - destruct (String.eqb p "") eqn:Hp; cbn.
    + by destruct (stdin_isTTY env).
    + destruct (stdin_isTTY env); cbn; [done|].
      by destruct (String.eqb (stdin_text env) "").
  - by destruct (stdin_isTTY env).
Qed.

(** ** Selection handling in the application component *)

(** X12. The keyboard handler, when copy-on-select is disabled and there is
    a selection: whatever the key, the selection is gone afterwards; the
    text goes to the clipboard exactly on Ctrl+C with a non-empty text; and
    the key is kept from going further exactly on such a copy or on Escape,
    so Ctrl+C over an empty selection passes through. Otherwise (flag unset,
    or no selection) the handler does nothing. *)
Theorem selection_keys (flag : bool) (renderer : Selection.Renderer) (evt : AppUi.KeyEvent) :
  let copyKey := AppUi.ctrl evt && String.eqb (AppUi.name evt) "c" in
  let after := fst (AppUi.onKey flag renderer evt) in
  let effects := snd (AppUi.onKey flag renderer evt) in
  match Selection.selection renderer with
  | Some text =>
      if flag then
        Selection.selection after = None /\
        AppUi.wrote_clipboard effects = copyKey && negb (String.eqb text "") /\
        AppUi.consumed effects
          = (copyKey && negb (String.eqb text "")) ||
            (negb copyKey && String.eqb (AppUi.name evt) "escape")
      else after = renderer /\ effects = []
  | None => after = renderer /\ effects = []
  end.
Proof.
  intros copyKey after effects. subst after effects. unfold AppUi.onKey.
  destruct renderer as [[text|]]; cbn; destruct flag; cbn; try done.
  fold copyKey. unfold Selection.copy. cbn.
  destruct copyKey; cbn.
  - destruct (String.eqb text ""); cbn; done.
  - destruct (String.eqb (AppUi.name evt) "escape"); cbn; done.
Qed.

(** X13. Exactly one mouse gesture copies a non-empty selection, depending
    on the flag: releasing the button when copy-on-select is on (flag
    unset), pressing the right button when it is disabled (flag set); the
    other gesture, and any other button, does nothing. Only the right-button
    copy keeps the event from going further. *)
Theorem one_mouse_gesture_copies
    (flag : bool) (renderer : Selection.Renderer) (text : string) (code : Z) :
  Selection.selection renderer = Some text -> text <> "" ->
  let up := AppUi.onMouseUp flag renderer in
  let down := AppUi.onMouseDown flag renderer AppUi.RIGHT in
  AppUi.wrote_clipboard (snd up) = negb flag /\
  AppUi.wrote_clipboard (snd down) = flag /\
  AppUi.consumed (snd up) = false /\
  AppUi.consumed (snd down) = flag /\
  (if flag then up = (renderer, []) else down = (renderer, [])) /\
  AppUi.onMouseDown flag renderer (AppUi.OtherButton code) = (renderer, []).
Proof.
  intros Hsel Hne up down. subst up down.
  unfold AppUi.onMouseUp, AppUi.onMouseDown, Selection.copy, Selection.getSelection.
  rewrite Hsel. cbn. destruct (String.eqb_spec text ""); [done|].
  destruct flag; cbn; by split_and!.
Qed.

Lemma one_mouse_gesture_copies_witness :
  let renderer := {| Selection.selection := Some "ls -la" |} in
  AppUi.wrote_clipboard (snd (AppUi.onMouseUp true renderer)) = false /\
  AppUi.wrote_clipboard (snd (AppUi.onMouseDown true renderer AppUi.RIGHT)) = true.
Proof.
  cbv zeta.
  destruct (one_mouse_gesture_copies true {| Selection.selection := Some "ls -la" |}
              "ls -la" 0 eq_refl ltac:(discriminate)) as (Hup & Hdown & _).
  split; [exact Hup|exact Hdown].
Defined.

(** X14. No copy path leaves the selection in place: whenever a handler
    (key, mouse press, mouse release, console copy) writes to the clipboard,
    the renderer has no selection when the handler is done; and the console
    copy clears it after the clipboard has settled, whether the write
    succeeded or failed. *)
Theorem copy_always_clears_selection
    (flag : bool) (renderer : Selection.Renderer) (evt : AppUi.KeyEvent)
    (button : AppUi.MouseButton) (text : string) (clipboard : Outcome unit) :
  (AppUi.wrote_clipboard (snd (AppUi.onKey flag renderer evt)) = true ->
   Selection.selection (fst (AppUi.onKey flag renderer evt)) = None) /\
  (AppUi.wrote_clipboard (snd (AppUi.onMouseDown flag renderer button)) = true ->
   Selection.selection (fst (AppUi.onMouseDown flag renderer button)) = None) /\
  (AppUi.wrote_clipboard (snd (AppUi.onMouseUp flag renderer)) = true ->
   Selection.selection (fst (AppUi.onMouseUp flag renderer)) = None) /\
  (text <> "" ->
   AppUi.onCopySelection text clipboard renderer
   = ({| Selection.selection := None |},
      [Selection.ClipboardCopy text] ++ Selection.copied clipboard ++
      [Selection.ClearSelection])) /\
  AppUi.onCopySelection "" clipboard renderer = (renderer, []).
Proof.
  split_and!.
  - unfold AppUi.onKey, Selection.copy, Selection.getSelection.
    destruct flag; cbn; [|done].
    destruct renderer as [[t|]]; cbn; [|done].
    destruct (AppUi.ctrl evt && String.eqb (AppUi.name evt) "c"); cbn.
    + destruct (String.eqb t ""); cbn; done.
    + destruct (String.eqb (AppUi.name evt) "escape"); cbn; done.
  - unfold AppUi.onMouseDown, Selection.copy, Selection.getSelection.
    destruct flag; cbn; [|done]. destruct button; cbn; [|done].
    destruct renderer as [[t|]]; cbn; [|done].
    destruct (String.eqb t ""); cbn; done.
  - unfold AppUi.onMouseUp, Selection.copy, Selection.getSelection.
    destruct flag; cbn; [done|].
    destruct renderer as [[t|]]; cbn; [|done].
    destruct (String.eqb t ""); cbn; done.
  - intros Hne. unfold AppUi.onCopySelection. cbn.
    destruct (String.eqb_spec text ""); [done|]. cbn.
    destruct text; [done|reflexivity].
  - reflexivity.
Qed.

(** ** The terminal title *)

(** X15. The terminal title is set only when titles are enabled. It is then
    "OpenCode" (on the home route, for an unknown session or a default
    title), or "OC | " followed by the session title when that has at most
    40 UTF-16 code units and by its first 37 code units and "..." otherwise:
    what follows "OC | " never exceeds 40 code units, the whole title 45. *)
Theorem terminal_title_bounded
    (enabled disabled : bool) (route : AppUi.Route)
    (get : string -> option AppUi.SessionInfo) (isDefaultTitle : Str -> bool) :
  match AppUi.terminalTitle enabled disabled route get isDefaultTitle with
  | None => enabled = false \/ disabled = true
  | Some t =>
      enabled = true /\ disabled = false /\
      (length t <= 45)%nat /\
      match route with
      | AppUi.HomeRoute => t = units "OpenCode"
      | AppUi.SessionRoute sessionID =>
          match get sessionID with
          | None => t = units "OpenCode"
          | Some session =>
              if isDefaultTitle (AppUi.title session) then t = units "OpenCode"
              else
                exists shown,
                  t = units "OC | " ++ shown /\
                  (length shown <= 40)%nat /\
                  ((length (AppUi.title session) <= 40)%nat ->
                   shown = AppUi.title session) /\
                  ((40 < length (AppUi.title session))%nat ->
                   shown = take 37 (AppUi.title session) ++ units "..." /\
                   length shown = 40%nat)
          end
      end
  end.
Proof.
  unfold AppUi.terminalTitle.
  destruct enabled, disabled; cbn -[Nat.ltb length units take]; try tauto.
  destruct route as [|sessionID].
  { split_and!; try done. cbn. lia. }
  destruct (get sessionID) as [session|].
  2: { split_and!; try done. cbn. lia. }
  destruct (isDefaultTitle (AppUi.title session)).
  { split_and!; try done. cbn. lia. }
  destruct (Nat.ltb_spec 40 (length (AppUi.title session))) as [Hlong|Hshort].
  - assert (length (slice0 37 (AppUi.title session) ++ units "...") = 40%nat) as Hlen.
    { unfold slice0. rewrite length_app, length_take, Nat.min_l by lia. reflexivity. }
    split_and!; try done.
    + rewrite length_app, Hlen. cbn. lia.
    + eexists. split_and!; [reflexivity|lia|lia|done].
  - split_and!; try done.
    + rewrite length_app. cbn. lia.
    + eexists. split_and!; [reflexivity|lia|done|lia].
Qed.

(** A title of 20 characters outside ASCII, one code unit each, is shown in
    full. *)
Example terminal_title_japanese :
  AppUi.terminalTitle true false (AppUi.SessionRoute "ses_1")
    (fun _ => Some (AppUi.mkSessionInfo "ses_1" (replicate 20 12354%N) None 0))
    (fun _ => false)
  = Some (units "OC | " ++ replicate 20 12354%N).
Proof. reflexivity. Qed.

(** ** The session [--continue] picks *)

Lemma insertSession_elems (P : AppUi.SessionInfo -> Prop)
    (x : AppUi.SessionInfo) (sorted : list AppUi.SessionInfo) :
  P x -> Forall P sorted -> Forall P (AppUi.insertSession x sorted).
Proof.
  intros Hx Hs. induction Hs as [|y rest Hy Hrest IH]; cbn.
  - by apply Forall_cons; split.
  - destruct (AppUi.updated y - AppUi.updated x <=? 0).
    + apply Forall_cons; split; [done|]. by apply Forall_cons; split.
    + by apply Forall_cons; split.
Qed.

Lemma insertSession_descending (x : AppUi.SessionInfo) (sorted : list AppUi.SessionInfo) :
  Continue.Descending sorted -> Continue.Descending (AppUi.insertSession x sorted).
Proof.
  intros Hs. induction Hs as [|y rest Hy Hrest IH]; cbn.
  - constructor; [by apply Forall_nil|constructor].
  - destruct (Z.leb_spec (AppUi.updated y - AppUi.updated x) 0) as [Hle|Hgt].
    + constructor; [|by constructor].
      apply Forall_cons; split; [lia|].
      eapply Forall_impl; [exact Hy|]. cbn. intros z Hz. lia.
    + constructor; [|done].
      apply insertSession_elems; [lia|done].
Qed.

Lemma toSorted_descending (sessions : list AppUi.SessionInfo) :
  Continue.Descending (AppUi.toSorted sessions).
Proof.
  induction sessions as [|x rest IH]; cbn; [constructor|].
  by apply insertSession_descending.
Qed.

Lemma find_some_bound (P : AppUi.SessionInfo -> Prop) (r : AppUi.SessionInfo)
    (l : list AppUi.SessionInfo) :
  Forall P l -> List.find AppUi.isRoot l = Some r -> P r.
Proof.
  intros Hl. induction Hl as [|y rest Hy Hrest IH]; cbn; [done|].
  destruct (AppUi.isRoot y); [|done]. by intros [= <-].
Qed.

(** The first root after an insertion: the inserted session when it is a
    root at least as recent as the first root there was. *)
Lemma find_insertSession (x : AppUi.SessionInfo) (sorted : list AppUi.SessionInfo) :
  Continue.Descending sorted ->
  List.find AppUi.isRoot (AppUi.insertSession x sorted) =
    if AppUi.isRoot x then
      match List.find AppUi.isRoot sorted with
      | Some r => if AppUi.updated r <=? AppUi.updated x then Some x else Some r
      | None => Some x
      end
    else List.find AppUi.isRoot sorted.
Proof.
  intros Hs. induction Hs as [|y rest Hy Hrest IH]; cbn.
  - by destruct (AppUi.isRoot x).
  - destruct (Z.leb_spec (AppUi.updated y - AppUi.updated x) 0) as [Hle|Hgt]; cbn.
    + destruct (AppUi.isRoot x) eqn:Hx; [|done].
      destruct (AppUi.isRoot y) eqn:Hroot.
      * destruct (Z.leb_spec (AppUi.updated y) (AppUi.updated x)); [done|lia].
      * destruct (List.find AppUi.isRoot rest) as [r|] eqn:Hfind; [|done].
        pose proof (find_some_bound _ r rest Hy Hfind) as Hr. cbn in Hr.
        destruct (Z.leb_spec (AppUi.updated r) (AppUi.updated x)); [done|lia].
    + destruct (AppUi.isRoot y) eqn:Hroot.
      * destruct (AppUi.isRoot x); [|done].
        destruct (Z.leb_spec (AppUi.updated y) (AppUi.updated x)); [lia|done].
      * exact IH.
Qed.

(** X16. With [--continue] the session continued is a root session (one
    without parent) of the list, at least as recently updated as every other
    root, and the first of the list among the roots updated at that same
    time; no session is picked exactly when the list has no root. Update
    times are taken as integers. *)
Theorem continue_picks_latest_root (sessions : list AppUi.SessionInfo) :
  match AppUi.continueMatch sessions with
  | None => Forall (fun x => AppUi.isRoot x = false) sessions
  | Some sid =>
      exists before x after,
        sessions = before ++ x :: after /\
        AppUi.id x = sid /\
        AppUi.isRoot x = true /\
        Forall (fun y => AppUi.isRoot y = true -> AppUi.updated y < AppUi.updated x) before /\
        Forall (fun y => AppUi.isRoot y = true -> AppUi.updated y <= AppUi.updated x) after
  end.
Proof.
  unfold AppUi.continueMatch.
  assert (match List.find AppUi.isRoot (AppUi.toSorted sessions) with
          | None => Forall (fun x => AppUi.isRoot x = false) sessions
          | Some x =>
              exists before after,
                sessions = before ++ x :: after /\
                AppUi.isRoot x = true /\
                Forall (fun y => AppUi.isRoot y = true ->
                                 AppUi.updated y < AppUi.updated x) before /\
                Forall (fun y => AppUi.isRoot y = true ->
                                 AppUi.updated y <= AppUi.updated x) after
          end) as H.
  { induction sessions as [|x rest IH]; [by apply Forall_nil|].
    change (AppUi.toSorted (x :: rest)) with (AppUi.insertSession x (AppUi.toSorted rest)).
    rewrite (find_insertSession x _ (toSorted_descending rest)).
    destruct (List.find AppUi.isRoot (AppUi.toSorted rest)) as [r|].
    - destruct IH as (before & after & -> & Hr & Hb & Ha).
      destruct (AppUi.isRoot x) eqn:Hx.
      + destruct (Z.leb_spec (AppUi.updated r) (AppUi.updated x)) as [Hle|Hgt].
        * exists [], (before ++ r :: after). split_and!; [done|done|by apply Forall_nil|].
          apply Forall_app; split.
          -- eapply Forall_impl; [exact Hb|]. cbn. intros y Hy Hroot.
             specialize (Hy Hroot). lia.
          -- apply Forall_cons; split; [done|].
             eapply Forall_impl; [exact Ha|]. cbn. intros y Hy Hroot.
             specialize (Hy Hroot). lia.
        * exists (x :: before), after. split_and!; [done|done| |done].
          apply Forall_cons; split; [intros _; lia|done].
      + exists (x :: before), after. split_and!; [done|done| |done].
        apply Forall_cons; split; [|done]. by rewrite Hx.
    - destruct (AppUi.isRoot x) eqn:Hx.
      + exists [], rest. split_and!; [done|done|by apply Forall_nil|].
        eapply Forall_impl; [exact IH|]. cbn. intros y Hy. by rewrite Hy.
      + by apply Forall_cons; split. }
  destruct (List.find AppUi.isRoot (AppUi.toSorted sessions)) as [x|]; cbn; [|done].
  destruct H as (before & after & H1 & H2 & H3 & H4).
  by exists before, x, after.
Qed.

(** ** Effects that run once *)

Lemma continueRuns_done (args : AppUi.AppArgs)
    (states : list (AppUi.SyncStatus * list AppUi.SessionInfo)) :
  AppUi.continueRuns args true states = [].
Proof.
  induction states as [|[status sessions] rest IH]; [done|].
  cbn. exact IH.
Qed.

(** X17. However often the [--continue] effect re-runs, it acts at most
    once, on the first state of the sync store that is past loading and has
    a root session to continue: it then asks for a fork of the picked
    session with [--fork] and for a navigation to it without, and for
    nothing in any later state. Without [--continue], or while every state
    is idle, it asks for nothing. *)
Theorem continue_acts_at_most_once (args : AppUi.AppArgs)
    (states : list (AppUi.SyncStatus * list AppUi.SessionInfo)) :
  AppUi.continueRuns args true states = [] /\
  match AppUi.continueRuns args false states with
  | [] => AppUi.on (AppUi.arg_continue args) = false \/ Forall Continue.idle states
  | [e] =>
      AppUi.on (AppUi.arg_continue args) = true /\
      exists before status sessions after sid,
        states = before ++ (status, sessions) :: after /\
        Forall Continue.idle before /\
        status <> AppUi.loading /\
        AppUi.continueMatch sessions = Some sid /\
        sid <> "" /\
        e = Continue.request args sid
  | _ => False
  end.
Proof.
  split; [apply continueRuns_done|].
  destruct (AppUi.on (AppUi.arg_continue args)) eqn:Hon.
  2: { assert (AppUi.continueRuns args false states = []) as ->; [|by left].
       induction states as [|[status sessions] rest IH]; [done|].
       cbn. unfold AppUi.continueEffect. rewrite Hon.
       destruct status; cbn; exact IH. }
  induction states as [|[status sessions] rest IH].
  { right. by apply Forall_nil. }
  assert (Continue.idle (status, sessions) ->
          AppUi.continueEffect args false status sessions = (false, []) ->
          match AppUi.continueRuns args false ((status, sessions) :: rest) with
          | [] => true = false \/ Forall Continue.idle ((status, sessions) :: rest)
          | [e] =>
              true = true /\
              exists before status0 sessions0 after sid,
                (status, sessions) :: rest = before ++ (status0, sessions0) :: after /\
                Forall Continue.idle before /\
                status0 <> AppUi.loading /\
                AppUi.continueMatch sessions0 = Some sid /\
                sid <> "" /\
                e = Continue.request args sid
          | _ => False
          end) as Hidle.
  { intros Hi Heq. cbn. rewrite Heq. cbn.
    destruct (AppUi.continueRuns args false rest) as [|e [|e' more]]; [| |done].
    - destruct IH as [IH|IH]; [done|]. right. by apply Forall_cons; split.
    - destruct IH as (_ & before & status0 & sessions0 & after & sid & -> & Hb & Hrest).
      split; [done|].
      exists ((status, sessions) :: before), status0, sessions0, after, sid.
      split; [done|]. split; [by apply Forall_cons; split|done]. }
  destruct (AppUi.continueMatch sessions) as [sid|] eqn:Hmatch.
  2: { apply Hidle; [right; by left|].
       unfold AppUi.continueEffect. rewrite Hon, Hmatch. by destruct status. }
  destruct (String.eqb_spec sid "") as [->|Hsid].
  { apply Hidle; [right; by right|].
    unfold AppUi.continueEffect. rewrite Hon, Hmatch. by destruct status. }
  assert (status = AppUi.loading \/ status <> AppUi.loading) as [->|Hstatus]
    by (destruct status; auto).
  { apply Hidle; [by left|]. unfold AppUi.continueEffect. by rewrite Hon. }
  assert (AppUi.continueEffect args false status sessions =
          (true, [Continue.request args sid])) as Heq.
  { unfold AppUi.continueEffect, Continue.request. rewrite Hon, Hmatch. cbn.
    destruct (String.eqb_spec sid ""); [done|].
    destruct status; [done| |]; cbn; by destruct (AppUi.on (AppUi.arg_fork args)). }
  cbn. rewrite Heq, continueRuns_done. cbn.
  split; [done|]. exists [], status, sessions, rest, sid.
  split_and!; [done|by apply Forall_nil|done|done|done|done].
Qed.

Lemma forkRuns_done (args : AppUi.AppArgs) (statuses : list AppUi.SyncStatus) :
  AppUi.forkRuns args true statuses = [].
Proof.
  induction statuses as [|status rest IH]; [done|]. cbn. exact IH.
Qed.

Lemma forkRuns_fresh (args : AppUi.AppArgs) (statuses : list AppUi.SyncStatus) :
  AppUi.forkRuns args false statuses =
    match AppUi.arg_sessionID args with
    | Some sid =>
        if truthy (Some sid) && AppUi.on (AppUi.arg_fork args) &&
           existsb (fun s => match s with AppUi.complete => true | _ => false end) statuses
        then [AppUi.Fork sid]
        else []
    | None => []
    end.
Proof.
  induction statuses as [|status rest IH].
  { cbn. destruct (AppUi.arg_sessionID args) as [sid|]; [|done].
    by rewrite andb_false_r. }
  cbn. unfold AppUi.forkEffect. cbn.
  destruct (AppUi.arg_sessionID args) as [sid|].
  2: { destruct status; cbn; exact IH. }
  cbn. cbn in IH.
  destruct (negb (String.eqb sid "")); cbn.
  2: { destruct status; cbn; exact IH. }
  destruct (AppUi.on (AppUi.arg_fork args)); cbn.
  2: { destruct status; cbn; exact IH. }
  destruct status; cbn; try exact IH.
  by rewrite forkRuns_done.
Qed.

(** X18. The fork of the session given with [--session] waits for the sync
    store to be complete and happens at most once: over any sequence of sync
    statuses the effect asks for exactly one fork of that session when both
    [--session] and [--fork] are given and the store is complete at some
    point, and for nothing otherwise. *)
Theorem fork_waits_for_complete (args : AppUi.AppArgs) (statuses : list AppUi.SyncStatus) :
  AppUi.forkRuns args true statuses = [] /\
  AppUi.forkRuns args false statuses =
    match AppUi.arg_sessionID args with
    | Some sid =>
        if truthy (Some sid) && AppUi.on (AppUi.arg_fork args) &&
           existsb (fun s => match s with AppUi.complete => true | _ => false end) statuses
        then [AppUi.Fork sid]
        else []
    | None => []
    end.
Proof.
  split; [apply forkRuns_done|apply forkRuns_fresh].
Qed.

(** ** Arguments handled on mount *)

(** X19. An unusable [--model] costs more than the model: when
    [Provider.parseModel] yields no provider or no model id, mounting shows
    the warning, sets no model and, because the callback returns there, does
    not open the session given with [--session] either; an [--agent] is
    still set, before the warning. *)
Theorem invalid_model_skips_session
    (parseModel : string -> option string * option string)
    (args : AppUi.AppArgs) (m : string) :
  AppUi.arg_model args = Some m ->
  m <> "" ->
  truthy (fst (parseModel m)) && truthy (snd (parseModel m)) = false ->
  exists agentPart,
    AppUi.onMount parseModel args =
      agentPart ++ [AppUi.ShowToast "warning" ("Invalid model format: " +:+ m) (Some 3000)] /\
    (forall a, AppUi.arg_agent args = Some a -> a <> "" -> agentPart = [AppUi.SetAgent a]) /\
    (forall e, In e agentPart -> exists a, e = AppUi.SetAgent a).
Proof.
  intros Hm Hne Hbad. unfold AppUi.onMount. rewrite Hm. cbn.
  destruct (String.eqb_spec m "") as [|_]; [done|]. cbn.
  eexists. split.
  - destruct (parseModel m) as [[p|] [q|]]; cbn in *; try reflexivity.
    destruct (String.eqb p ""), (String.eqb q ""); cbn in *; try reflexivity.
    discriminate.
  - split.
    + intros a -> Ha. destruct (String.eqb_spec a ""); [done|]. reflexivity.
    + intros e He. destruct (AppUi.arg_agent args) as [a|]; [|done].
      destruct (negb (String.eqb a "")); [|done].
      destruct He as [<-|[]]. by exists a.
Qed.

Lemma invalid_model_skips_session_witness :
  exists agentPart,
    AppUi.onMount (fun _ => (Some "anthropic", None))
      (AppUi.mkAppArgs (Some "build") (Some "anthropic") (Some "ses_1") None None) =
      agentPart ++
      [AppUi.ShowToast "warning" ("Invalid model format: " +:+ "anthropic") (Some 3000)] /\
    (forall a, Some "build" = Some a -> a <> "" -> agentPart = [AppUi.SetAgent a]) /\
    (forall e, In e agentPart -> exists a, e = AppUi.SetAgent a).
Proof.
  apply (invalid_model_skips_session (fun _ => (Some "anthropic", None))
           (AppUi.mkAppArgs (Some "build") (Some "anthropic") (Some "ses_1") None None)
           "anthropic"); [reflexivity|discriminate|reflexivity].
Defined.

(** X20. A session given with [--session] is opened by exactly one of two
    paths. With a usable or absent [--model] and a sync store that becomes
    complete: without [--fork] mounting navigates to the session, once, and
    the fork effect never asks for anything; with [--fork] mounting does not
    navigate and the effect asks for one fork of that session. *)
Theorem session_opened_by_one_path
    (parseModel : string -> option string * option string)
    (args : AppUi.AppArgs) (s : string) (statuses : list AppUi.SyncStatus) :
  AppUi.arg_sessionID args = Some s ->
  s <> "" ->
  (forall m, AppUi.arg_model args = Some m -> m <> "" ->
             truthy (fst (parseModel m)) && truthy (snd (parseModel m)) = true) ->
  In AppUi.complete statuses ->
  if AppUi.on (AppUi.arg_fork args) then
    AppUi.forkRuns args false statuses = [AppUi.Fork s] /\
    forall route, ~ In (AppUi.Navigate route) (AppUi.onMount parseModel args)
  else
    AppUi.forkRuns args false statuses = [] /\
    List.filter (fun e => match e with AppUi.Navigate _ => true | _ => false end)
      (AppUi.onMount parseModel args) = [AppUi.Navigate (AppUi.SessionRoute s)].
Proof.
  intros Hs Hne Hmodel Hc.
  assert (existsb (fun s => match s with AppUi.complete => true | _ => false end)
            statuses = true) as Hex.
  { apply existsb_exists. by exists AppUi.complete. }
  pose proof (forkRuns_fresh args statuses) as Hf.
  rewrite Hs, Hex in Hf. cbn in Hf.
  unfold AppUi.onMount. rewrite Hs. cbn.
  destruct (String.eqb_spec s ""); [done|]. cbn in *.
  assert (exists agentPart,
            match AppUi.arg_agent args with
            | Some a => if negb (String.eqb a "") then [AppUi.SetAgent a] else []
            | None => []
            end = agentPart /\
            forall e, In e agentPart -> exists a, e = AppUi.SetAgent a)
    as (agentPart & -> & Hagent).
  { eexists. split; [reflexivity|]. intros e He.
    destruct (AppUi.arg_agent args) as [a|]; [|done].
    destruct (negb (String.eqb a "")); [|done].
    destruct He as [<-|[]]. by exists a. }
  assert (List.filter (fun e => match e with AppUi.Navigate _ => true | _ => false end)
            agentPart = []) as Hnone.
  { clear -Hagent. induction agentPart as [|e rest IH]; [done|].
    cbn. destruct (Hagent e (or_introl eq_refl)) as [a ->].
    apply IH. intros e' He'. apply Hagent. by right. }
  assert (forall route, ~ In (AppUi.Navigate route) agentPart) as Hnot.
  { intros route Hin. by destruct (Hagent _ Hin). }
  destruct (AppUi.arg_model args) as [m|] eqn:Hm.
  - destruct (String.eqb_spec m "") as [->|Hmne]; cbn.
    + destruct (AppUi.on (AppUi.arg_fork args)); cbn in *.
      * split; [done|]. intros route. rewrite app_nil_r. apply Hnot.
      * split; [done|]. by rewrite List.filter_app, Hnone.
    + specialize (Hmodel m eq_refl Hmne).
      destruct (parseModel m) as [[p|] [q|]]; cbn in Hmodel; try done.
      2: { by rewrite andb_false_r in Hmodel. }
      destruct (String.eqb p ""), (String.eqb q ""); cbn in *; try done.
      destruct (AppUi.on (AppUi.arg_fork args)); cbn in *.
      * split; [done|]. intros route [Hin|[Hin|[]]]%in_app_or; [by apply (Hnot route)|done].
      * split; [done|]. by rewrite List.filter_app, Hnone.
  - destruct (AppUi.on (AppUi.arg_fork args)); cbn in *.
    + split; [done|]. intros route. rewrite app_nil_r. apply Hnot.
    + split; [done|]. by rewrite List.filter_app, Hnone.
Qed.

Lemma session_opened_by_one_path_witness :
  if AppUi.on (AppUi.arg_fork (AppUi.mkAppArgs None (Some "a/b") (Some "ses_1") None (Some true)))
  then
    AppUi.forkRuns (AppUi.mkAppArgs None (Some "a/b") (Some "ses_1") None (Some true)) false
      [AppUi.loading; AppUi.partial; AppUi.complete; AppUi.complete] = [AppUi.Fork "ses_1"] /\
    forall route,
      ~ In (AppUi.Navigate route)
          (AppUi.onMount (fun _ => (Some "a", Some "b"))
             (AppUi.mkAppArgs None (Some "a/b") (Some "ses_1") None (Some true)))
  else
    AppUi.forkRuns (AppUi.mkAppArgs None (Some "a/b") (Some "ses_1") None (Some true)) false
      [AppUi.loading; AppUi.partial; AppUi.complete; AppUi.complete] = [] /\
    List.filter (fun e => match e with AppUi.Navigate _ => true | _ => false end)
      (AppUi.onMount (fun _ => (Some "a", Some "b"))
         (AppUi.mkAppArgs None (Some "a/b") (Some "ses_1") None (Some true))) =
    [AppUi.Navigate (AppUi.SessionRoute "ses_1")].
Proof.
  apply (session_opened_by_one_path (fun _ => (Some "a", Some "b"))
           (AppUi.mkAppArgs None (Some "a/b") (Some "ses_1") None (Some true)) "ses_1"
           [AppUi.loading; AppUi.partial; AppUi.complete; AppUi.complete]).
  - reflexivity.
  - discriminate.
  - intros m _ _. reflexivity.
  - cbn. tauto.
Defined.
